(** * Satori adapter models: a shallow embedding of [models.py]

    The source declares pydantic (v1) models for the Satori gateway
    protocol.  The classes are declarative; what they do on a raw payload
    is fixed by pydantic's validation algorithm.  This development writes
    that algorithm out for the declared fields and validators:

    - raw values are the Python values a decoded JSON document holds
      (null, booleans, integers, strings, lists, string-keyed mappings),
      plus already-built [datetime] objects, which the timestamp
      validators test for;
    - a validator either returns, or raises a Python exception; pydantic
      turns [ValueError], [TypeError] and [AssertionError] into field
      errors and lets every other exception class escape;
    - a model validates every declared field, collects the errors of all
      of them, and keeps unknown keys when it is declared with
      [extra=Extra.allow];
    - [log] is the only effect: validators thread the list of emitted
      log records. *)

From Stdlib Require Import ZArith List String Ascii Bool Lia.
From Stdlib Require Import DecimalString DecimalPos.
Import ListNotations.
#[local] Set Warnings "-register-all".
Local Open Scope string_scope.
Local Open Scope list_scope.
Local Open Scope Z_scope.

(** ** Raw values *)

(** A [datetime] is kept as its instant: microseconds since the epoch.
    (The source builds naive local datetimes; with the process time zone
    fixed this is a bijection onto instants, and the model takes UTC.) *)
Record datetime : Type := mk_datetime { micros : Z }.

Inductive PyVal : Type :=
| PNone
| PBool (b : bool)
| PInt (z : Z)
| PStr (s : string)
| PList (l : list PyVal)
| PDict (d : list (string * PyVal))
| PDatetime (t : datetime).

(** A mapping is an association list in insertion order, as a Python
    [dict] iterates; keys of a well-formed mapping are pairwise distinct. *)
Definition RawMap : Type := list (string * PyVal).

Fixpoint get {A : Type} (k : string) (m : list (string * A)) : option A :=
  match m with
  | [] => None
  | (k', v) :: m' => if String.eqb k k' then Some v else get k m'
  end.

Definition has_key {A : Type} (k : string) (m : list (string * A)) : bool :=
  match get k m with Some _ => true | None => false end.

Fixpoint remove_key {A : Type} (k : string) (m : list (string * A))
  : list (string * A) :=
  match m with
  | [] => []
  | (k', v) :: m' =>
      if String.eqb k k' then remove_key k m' else (k', v) :: remove_key k m'
  end.

(** [{**m, k: v}]: the key keeps its position when present, and is
    appended otherwise. *)
Fixpoint set_key {A : Type} (k : string) (v : A) (m : list (string * A))
  : list (string * A) :=
  match m with
  | [] => [(k, v)]
  | (k', v') :: m' =>
      if String.eqb k k' then (k, v) :: m' else (k', v') :: set_key k v m'
  end.

(** ** Python exceptions *)

Inductive PyExc : Type :=
| ValueError_invalid_literal            (* int("abc") *)
| ValueError_invalid_timestamp (v : PyVal)
                                        (* ValueError(f"invalid timestamp: {v}") *)
| ValueError_content_must_be_str        (* ValueError("content must be str") *)
| ValueError_year_out_of_range          (* datetime.fromtimestamp *)
| TypeError_int_argument                (* int([]) *)
| OverflowError                         (* int too large for a float, time_t *)
| OSError                               (* localtime: EOVERFLOW *)
| ParserError.                          (* raised by the markup parser *)

Inductive Raises (A : Type) : Type :=
| Return (a : A)
| Raise (e : PyExc).
Arguments Return {A} a.
Arguments Raise {A} e.

(** ** [int(v)] *)

Definition is_space (c : ascii) : bool :=
  let n := nat_of_ascii c in
  ((9 <=? n) && (n <=? 13) || (n =? 32))%nat.

Definition digit_of (c : ascii) : option Z :=
  let n := nat_of_ascii c in
  if ((48 <=? n) && (n <=? 57))%nat then Some (Z.of_nat n - 48) else None.

Fixpoint lstrip (s : string) : string :=
  match s with
  | String c s' => if is_space c then lstrip s' else s
  | EmptyString => EmptyString
  end.

Fixpoint all_space (s : string) : bool :=
  match s with
  | String c s' => is_space c && all_space s'
  | EmptyString => true
  end.

(** Digits of a decimal literal after the first one: single underscores
    may separate digits; trailing white space ends the literal. *)
Fixpoint digits_tail (acc : Z) (s : string) : option Z :=
  match s with
  | EmptyString => Some acc
  | String c s' =>
      match digit_of c with
      | Some d => digits_tail (10 * acc + d) s'
      | None =>
          if Ascii.eqb c "_"%char then
            match s' with
            | String c' s'' =>
                match digit_of c' with
                | Some d => digits_tail (10 * acc + d) s''
                | None => None
                end
            | EmptyString => None
            end
          else if all_space s then Some acc else None
      end
  end.

Definition digits (s : string) : option Z :=
  match s with
  | String c s' =>
      match digit_of c with
      | Some d => digits_tail d s'
      | None => None
      end
  | EmptyString => None
  end.

(** [int(s)] for a string, base 10: surrounding white space, an optional
    sign, digits.  Strings are ASCII text here. *)
Definition int_of_str (s : string) : option Z :=
  match lstrip s with
  | String "+" s' => digits s'
  | String "-" s' => option_map Z.opp (digits s')
  | s' => digits s'
  end.

Definition py_int (v : PyVal) : Raises Z :=
  match v with
  | PInt z => Return z
  | PBool b => Return (if b then 1 else 0)
  | PStr s =>
      match int_of_str s with
      | Some z => Return z
      | None => Raise ValueError_invalid_literal
      end
  | PNone | PList _ | PDict _ | PDatetime _ => Raise TypeError_int_argument
  end.

(** ** Floating point: [timestamp / 1000] and [datetime.fromtimestamp]

    Python's [/] on two integers is the correctly rounded binary64
    quotient; [datetime.fromtimestamp] splits a float with [modf],
    multiplies the fraction by [1e6] in binary64 and rounds the product
    half-to-even to whole microseconds.  A finite binary64 number is kept
    as [fm * 2 ^ fe]. *)

Record float64 : Type := mk_float { fm : Z; fe : Z }.

(** [n / d] rounded to the nearest integer, ties to even ([d > 0]). *)
Definition round_half_even (n d : Z) : Z :=
  let q := n / d in
  let r := n mod d in
  if 2 * r <? d then q
  else if d <? 2 * r then q + 1
  else if Z.even q then q else q + 1.

(** [floor (log2 (n / d))] for positive [n] and [d]. *)
Definition ilog2_ratio (n d : Z) : Z :=
  let k := Z.log2 n - Z.log2 d in
  if (if 0 <=? k then d * 2 ^ k <=? n else d <=? n * 2 ^ (- k))
  then k else k - 1.

(** The binary64 number nearest to [n / d] ([n >= 0], [d > 0]), ties to
    even: a 53-bit significand scaled by a power of two.  (The exponent
    range is checked where the quotient can leave it.) *)
Definition rne53 (n d : Z) : float64 :=
  if n =? 0 then mk_float 0 0
  else
    let e := ilog2_ratio n d - 52 in
    let m := if 0 <=? e then round_half_even n (d * 2 ^ e)
             else round_half_even (n * 2 ^ (- e)) d in
    mk_float m e.

Definition fneg (x : float64) : float64 := mk_float (- fm x) (fe x).

(** [a / b] for Python ints, [b > 0]: [OverflowError] past the largest
    binary64 number. *)
Definition true_divide (a b : Z) : Raises float64 :=
  let x := rne53 (Z.abs a) b in
  if 2 ^ 1024 <=? fm x * 2 ^ fe x
  then Raise OverflowError
  else Return (if a <? 0 then fneg x else x).

(** [math.modf]: integral part (truncated towards zero) and fraction. *)
Definition trunc (x : float64) : Z :=
  if 0 <=? fe x then fm x * 2 ^ fe x else Z.quot (fm x) (2 ^ (- fe x)).

Definition frac (x : float64) : float64 :=
  if 0 <=? fe x then mk_float 0 0
  else mk_float (Z.rem (fm x) (2 ^ (- fe x))) (fe x).

(** [x * 1e6] in binary64. *)
Definition mul_1e6 (x : float64) : float64 :=
  let n := Z.abs (fm x) * 1000000 in
  let y := if 0 <=? fe x then rne53 (n * 2 ^ fe x) 1
           else rne53 n (2 ^ (- fe x)) in
  if fm x <? 0 then fneg y else y.

(** [round(x)] to an integer, ties to even. *)
Definition round_float (x : float64) : Z :=
  if 0 <=? fe x then fm x * 2 ^ fe x
  else round_half_even (fm x) (2 ^ (- fe x)).

(** Seconds that [datetime.fromtimestamp] accepts: years 1 to 9999; the
    first day of year 1 is lost to the fold probe, which looks one day
    back.  Outside, [localtime] still answers for years that fit a C
    [int] and the constructor raises [ValueError]; further out the call
    fails with [OSError], or [OverflowError] past [time_t]
    (CPython on 64-bit Linux). *)
Definition min_seconds : Z := -62135510400.
Definition max_seconds : Z := 253402300799.
Definition min_localtime : Z := -67768040609740800.
Definition max_localtime : Z := 67768036191676799.

(** The microseconds read off a float: the integral part, and the
    fraction scaled and rounded. *)
Definition micros_of_float (x : float64) : Z :=
  trunc x * 1000000 + round_float (mul_1e6 (frac x)).

Definition fromtimestamp (x : float64) : Raises datetime :=
  let us := micros_of_float x in
  let sec := us / 1000000 in
  if (min_seconds <=? sec) && (sec <=? max_seconds)
  then Return (mk_datetime us)
  else if (min_localtime <=? sec) && (sec <=? max_localtime)
  then Raise ValueError_year_out_of_range
  else if (- 2 ^ 63 <=? sec) && (sec <=? 2 ^ 63)
  then Raise OSError
  else Raise OverflowError.

Definition bind_raises {A B : Type} (r : Raises A) (k : A -> Raises B)
  : Raises B :=
  match r with
  | Return a => k a
  | Raise e => Raise e
  end.

(** [datetime.fromtimestamp(timestamp / 1000)] *)
Definition fromtimestamp_ms (timestamp : Z) : Raises datetime :=
  bind_raises (true_divide timestamp 1000) fromtimestamp.

(** ** Validation outcomes

    A failed validation is a [ValidationError]: the list of the errors of
    every field, each with the path of keys that leads to it.  An
    exception that pydantic does not catch leaves the whole decode. *)

Inductive LocItem : Type :=
| LKey (k : string)
| LIndex (i : nat).

Inductive ErrorKind : Type :=
| MissingError                (* field required *)
| NoneIsNotAllowedError       (* none is not an allowed value *)
| StrError
| IntegerError
| BoolError
| DateTimeError
| EnumMemberError             (* value is not a valid enumeration member *)
| WrongConstantError          (* unexpected value; permitted: ... *)
| DictError                   (* value is not a valid dict *)
| ListError                   (* value is not a valid list *)
| KeywordsError               (* cls( **value ) with a key that is no string *)
| ElementError                (* an item of [content] is no Element *)
| ValidatorError (e : PyExc). (* raised by a validator of the source *)

Record Error : Type := mk_error { loc : list LocItem; kind : ErrorKind }.

(** [log(level, message)] *)
Record LogRecord : Type := mk_log { level : string; message : string }.

Inductive Outcome (A : Type) : Type :=
| Valid (a : A)
| Invalid (errs : list Error)
| Escapes (e : PyExc).
Arguments Valid {A} a.
Arguments Invalid {A} errs.
Arguments Escapes {A} e.

Definition V (A : Type) : Type := (list LogRecord * Outcome A)%type.

Definition logs {A : Type} (v : V A) : list LogRecord := fst v.
Definition outcome {A : Type} (v : V A) : Outcome A := snd v.

Definition pure {A : Type} (a : A) : V A := ([], Valid a).
Definition invalid {A : Type} (k : ErrorKind) : V A :=
  ([], Invalid [mk_error [] k]).

(** Sequencing: the second step runs on the value of the first. *)
Definition bind {A B : Type} (v : V A) (k : A -> V B) : V B :=
  match v with
  | (l, Valid a) => let (l', o) := k a in (l ++ l', o)
  | (l, Invalid errs) => (l, Invalid errs)
  | (l, Escapes e) => (l, Escapes e)
  end.

(** Fields of one model: each is validated whatever happened to the ones
    before it and the errors add up; an escaping exception stops the
    loop. *)
Definition ap {A B : Type} (f : V (A -> B)) (a : V A) : V B :=
  match f with
  | (l, Escapes e) => (l, Escapes e)
  | (l, Valid g) =>
      match a with
      | (l', Valid x) => (l ++ l', Valid (g x))
      | (l', Invalid errs) => (l ++ l', Invalid errs)
      | (l', Escapes e) => (l ++ l', Escapes e)
      end
  | (l, Invalid errs) =>
      match a with
      | (l', Valid _) => (l ++ l', Invalid errs)
      | (l', Invalid errs') => (l ++ l', Invalid (errs ++ errs'))
      | (l', Escapes e) => (l ++ l', Escapes e)
      end
  end.

Definition fmap {A B : Type} (g : A -> B) (v : V A) : V B :=
  match v with
  | (l, Valid a) => (l, Valid (g a))
  | (l, Invalid errs) => (l, Invalid errs)
  | (l, Escapes e) => (l, Escapes e)
  end.

Declare Scope valid_scope.
Delimit Scope valid_scope with valid.
Notation "f <*> a" := (ap f a) (at level 61, left associativity) : valid_scope.
Notation "x <- v ;; k" := (bind v (fun x => k))
  (at level 100, v at next level, right associativity) : valid_scope.
Local Open Scope valid_scope.

(** Errors of a nested value are reported under the key that holds it. *)
Definition at_loc {A : Type} (i : LocItem) (v : V A) : V A :=
  match v with
  | (l, Invalid errs) =>
      (l, Invalid (map (fun e => mk_error (i :: loc e) (kind e)) errs))
  | _ => v
  end.

(** pydantic catches [ValueError], [TypeError] and [AssertionError]
    around a validator; the parser's own exception class is not one of
    them. *)
Definition caught (e : PyExc) : bool :=
  match e with
  | OverflowError | OSError | ParserError => false
  | _ => true
  end.

Definition apply_validator {A : Type} (r : Raises A) : V A :=
  match r with
  | Return a => pure a
  | Raise e => if caught e then invalid (ValidatorError e) else ([], Escapes e)
  end.

(** ** Field types *)

(** [str(z)] *)
Definition str_of_int (z : Z) : string :=
  NilZero.string_of_int (Z.to_int z).

(** [str]: strings pass, numbers are printed. *)
Definition str_validator (v : PyVal) : V string :=
  match v with
  | PStr s => pure s
  | PInt z => pure (str_of_int z)
  | PBool b => pure (if b then "True" else "False")
  | _ => invalid StrError
  end.

(** [int]: integers pass, everything else goes through [int(v)]. *)
Definition int_validator (v : PyVal) : V Z :=
  match v with
  | PInt z => pure z
  | _ =>
      match py_int v with
      | Return z => pure z
      | Raise _ => invalid IntegerError
      end
  end.

Definition lower_ascii (c : ascii) : ascii :=
  let n := nat_of_ascii c in
  if ((65 <=? n) && (n <=? 90))%nat then ascii_of_nat (n + 32) else c.

Fixpoint lower (s : string) : string :=
  match s with
  | EmptyString => EmptyString
  | String c s' => String (lower_ascii c) (lower s')
  end.

Definition mem_str (s : string) (l : list string) : bool :=
  existsb (String.eqb s) l.

(** [bool]: the booleans, 0 and 1, and the words pydantic lists. *)
Definition bool_validator (v : PyVal) : V bool :=
  match v with
  | PBool b => pure b
  | PInt 1 => pure true
  | PInt 0 => pure false
  | PStr s =>
      if mem_str (lower s) ["1"; "on"; "t"; "true"; "y"; "yes"] then pure true
      else if mem_str (lower s) ["0"; "off"; "f"; "false"; "n"; "no"]
      then pure false
      else invalid BoolError
  | _ => invalid BoolError
  end.

(** [datetime]: a datetime passes.  (pydantic would also read numbers
    and ISO strings; every datetime field of this module has a
    pre-validator that hands it a datetime or nothing.) *)
Definition datetime_validator (v : PyVal) : V datetime :=
  match v with
  | PDatetime t => pure t
  | _ => invalid DateTimeError
  end.

(** ** [dict(v)]

    A model or [Dict] field takes a mapping as it is and tries [dict(v)]
    on anything else: a list of pairs becomes a mapping, later pairs
    overwriting the value of an equal earlier key. *)

Definition hashable (v : PyVal) : bool :=
  match v with
  | PList _ | PDict _ => false
  | _ => true
  end.

Definition key_eqb (a b : PyVal) : bool :=
  match a, b with
  | PNone, PNone => true
  | PStr s, PStr s' => String.eqb s s'
  | PDatetime t, PDatetime t' => micros t =? micros t'
  | PInt z, PInt z' => z =? z'
  | PInt z, PBool b | PBool b, PInt z => z =? (if b then 1 else 0)
  | PBool b, PBool b' => Bool.eqb b b'
  | _, _ => false
  end.

(** An item of the iterable must itself iterate over exactly two values. *)
Definition pair_of (item : PyVal) : option (PyVal * PyVal) :=
  match item with
  | PList [k; v] => Some (k, v)
  | PStr (String a (String b EmptyString)) =>
      Some (PStr (String a EmptyString), PStr (String b EmptyString))
  | PDict [(k, _); (k', _)] => Some (PStr k, PStr k')
  | _ => None
  end.

Fixpoint dict_setitem (k v : PyVal) (d : list (PyVal * PyVal))
  : list (PyVal * PyVal) :=
  match d with
  | [] => [(k, v)]
  | (k', v') :: d' =>
      if key_eqb k k' then (k', v) :: d' else (k', v') :: dict_setitem k v d'
  end.

Fixpoint dict_update (d : list (PyVal * PyVal)) (items : list PyVal)
  : option (list (PyVal * PyVal)) :=
  match items with
  | [] => Some d
  | item :: items' =>
      match pair_of item with
      | Some (k, v) =>
          if hashable k then dict_update (dict_setitem k v d) items' else None
      | None => None
      end
  end.

Definition py_dict (v : PyVal) : option (list (PyVal * PyVal)) :=
  match v with
  | PDict d => Some (map (fun kv => (PStr (fst kv), snd kv)) d)
  | PList items => dict_update [] items
  | PStr EmptyString => Some []
  | _ => None
  end.

(** [cls( **d )]: every key must be a string. *)
Fixpoint keywords (d : list (PyVal * PyVal)) : option RawMap :=
  match d with
  | [] => Some []
  | (PStr k, v) :: d' => option_map (cons (k, v)) (keywords d')
  | _ => None
  end.

(** [Model.validate(value)] *)
Definition Model_validate {A : Type} (validate_model : RawMap -> V A)
  (value : PyVal) : V A :=
  match value with
  | PDict d => validate_model d
  | _ =>
      match py_dict value with
      | None => invalid DictError
      | Some d =>
          match keywords d with
          | Some m => validate_model m
          | None => invalid KeywordsError
          end
      end
  end.

(** ** Fields of a model *)

Definition no_pre (v : PyVal) : Raises PyVal := Return v.

(** [ModelField.validate]: the pre-validators run first, then [None] is
    settled, then the validators of the declared type. *)
Definition validate_field {A : Type} (pre : PyVal -> Raises PyVal)
  (validate : PyVal -> V A) (v : PyVal) : V (option A) :=
  w <- apply_validator (pre v) ;;
  match w with
  | PNone => pure None
  | _ => fmap Some (validate w)
  end.

Definition not_none {A : Type} (v : V (option A)) : V A :=
  x <- v ;;
  match x with
  | Some a => pure a
  | None => invalid NoneIsNotAllowedError
  end.

(** [name: T] *)
Definition required_with {A : Type} (pre : PyVal -> Raises PyVal)
  (validate : PyVal -> V A) (name : string) (input_data : RawMap) : V A :=
  match get name input_data with
  | None => at_loc (LKey name) (invalid MissingError)
  | Some v => at_loc (LKey name) (not_none (validate_field pre validate v))
  end.

(** [name: Optional[T] = None]: the default is taken without validation. *)
Definition optional_with {A : Type} (pre : PyVal -> Raises PyVal)
  (validate : PyVal -> V A) (name : string) (input_data : RawMap)
  : V (option A) :=
  match get name input_data with
  | None => pure None
  | Some v => at_loc (LKey name) (validate_field pre validate v)
  end.

Definition required {A : Type} := @required_with A no_pre.
Definition optional {A : Type} := @optional_with A no_pre.

(** [name: T = Field(default)] *)
Definition defaulted {A : Type} (default : A) (validate : PyVal -> V A)
  (name : string) (input_data : RawMap) : V A :=
  match get name input_data with
  | None => pure default
  | Some v => at_loc (LKey name) (not_none (validate_field no_pre validate v))
  end.

(** [extra=Extra.allow]: the keys of the input that name no field are
    kept with their values. *)
Definition extra_allow (fields : list string) (input_data : RawMap) : RawMap :=
  filter (fun kv => negb (mem_str (fst kv) fields)) input_data.

(** [List[T]]: only a list is a sequence; each item is validated and
    reported under its index. *)
Fixpoint validate_items {A : Type} (validate : PyVal -> V A) (i : nat)
  (items : list PyVal) : V (list A) :=
  match items with
  | [] => pure []
  | x :: items' =>
      pure cons <*> at_loc (LIndex i) (validate x)
                <*> validate_items validate (S i) items'
  end.

Definition list_validator {A : Type} (validate : PyVal -> V A) (v : PyVal)
  : V (list A) :=
  match v with
  | PList items => validate_items validate 0%nat items
  | _ => invalid ListError
  end.

(** [Dict[str, Any]] *)
Definition key_validator (k : PyVal) : V string :=
  at_loc (LKey "__key__")
    (match k with
     | PNone => invalid NoneIsNotAllowedError
     | _ => str_validator k
     end).

Fixpoint validate_mapping (result : RawMap) (d : list (PyVal * PyVal))
  : V RawMap :=
  match d with
  | [] => pure result
  | (k, v) :: d' =>
      match key_validator k with
      | (_, Valid k') => validate_mapping (set_key k' v result) d'
      | (_, bad) => pure (fun (_ : string) m => m) <*> ([], bad)
                      <*> validate_mapping result d'
      end
  end.

Definition dict_validator (v : PyVal) : V RawMap :=
  match v with
  | PDict d => pure d
  | _ =>
      match py_dict v with
      | Some d => validate_mapping [] d
      | None => invalid DictError
      end
  end.

(** ** The models of the source *)

Definition is_ValueError (e : PyExc) : bool :=
  match e with
  | ValueError_invalid_literal | ValueError_invalid_timestamp _
  | ValueError_content_must_be_str | ValueError_year_out_of_range => true
  | _ => false
  end.

Inductive ChannelType : Type := TEXT | VOICE | CATEGORY | DIRECT.

Definition ChannelType_of_int (z : Z) : option ChannelType :=
  match z with
  | 0 => Some TEXT
  | 1 => Some VOICE
  | 2 => Some CATEGORY
  | 3 => Some DIRECT
  | _ => None
  end.

(** An [IntEnum] field: [int_validator], then [enum_member_validator]. *)
Definition enum_validator {A : Type} (of_int : Z -> option A) (v : PyVal)
  : V A :=
  z <- int_validator v ;;
  match of_int z with
  | Some a => pure a
  | None => invalid EnumMemberError
  end.

Record Channel : Type := mk_Channel {
  Channel_id : string;
  Channel_name : option string;
  Channel_type : ChannelType;
  Channel_parent_id : option string;
  Channel_extra : RawMap
}.

Definition Channel_fields : list string := ["id"; "name"; "type"; "parent_id"].

Definition validate_Channel (input_data : RawMap) : V Channel :=
  pure mk_Channel
    <*> required str_validator "id" input_data
    <*> optional str_validator "name" input_data
    <*> required (enum_validator ChannelType_of_int) "type" input_data
    <*> optional str_validator "parent_id" input_data
    <*> pure (extra_allow Channel_fields input_data).

Record Guild : Type := mk_Guild {
  Guild_id : string;
  Guild_name : string;
  Guild_avatar : option string;
  Guild_extra : RawMap
}.

Definition Guild_fields : list string := ["id"; "name"; "avatar"].

Definition validate_Guild (input_data : RawMap) : V Guild :=
  pure mk_Guild
    <*> required str_validator "id" input_data
    <*> required str_validator "name" input_data
    <*> optional str_validator "avatar" input_data
    <*> pure (extra_allow Guild_fields input_data).

Record User : Type := mk_User {
  User_id : string;
  User_name : option string;
  User_avatar : option string;
  User_is_bot : option bool;
  User_extra : RawMap
}.

Definition User_fields : list string := ["id"; "name"; "avatar"; "is_bot"].

Definition validate_User (input_data : RawMap) : V User :=
  pure mk_User
    <*> required str_validator "id" input_data
    <*> optional str_validator "name" input_data
    <*> optional str_validator "avatar" input_data
    <*> optional bool_validator "is_bot" input_data
    <*> pure (extra_allow User_fields input_data).

Record InnerMember : Type := mk_InnerMember {
  InnerMember_user : option User;
  InnerMember_name : option string;
  InnerMember_avatar : option string;
  InnerMember_joined_at : option datetime;
  InnerMember_extra : RawMap
}.

Definition parse_joined_at (v : PyVal) : Raises PyVal :=
  match v with
  | PNone => Return PNone
  | PDatetime _ => Return v
  | _ =>
      match py_int v with
      | Return timestamp =>
          bind_raises (fromtimestamp_ms timestamp)
            (fun t => Return (PDatetime t))
      | Raise e =>
          if is_ValueError e then Raise (ValueError_invalid_timestamp v)
          else Raise e
      end
  end.

Definition Member_fields : list string := ["user"; "name"; "avatar"; "joined_at"].

Definition validate_InnerMember (input_data : RawMap) : V InnerMember :=
  pure mk_InnerMember
    <*> optional (Model_validate validate_User) "user" input_data
    <*> optional str_validator "name" input_data
    <*> optional str_validator "avatar" input_data
    <*> optional_with parse_joined_at datetime_validator "joined_at" input_data
    <*> pure (extra_allow Member_fields input_data).

(** [OuterMember] narrows [user] and [joined_at] to required fields and
    inherits the validator of [joined_at]. *)
Record OuterMember : Type := mk_OuterMember {
  OuterMember_user : User;
  OuterMember_name : option string;
  OuterMember_avatar : option string;
  OuterMember_joined_at : datetime;
  OuterMember_extra : RawMap
}.

Definition validate_OuterMember (input_data : RawMap) : V OuterMember :=
  pure mk_OuterMember
    <*> required (Model_validate validate_User) "user" input_data
    <*> optional str_validator "name" input_data
    <*> optional str_validator "avatar" input_data
    <*> required_with parse_joined_at datetime_validator "joined_at" input_data
    <*> pure (extra_allow Member_fields input_data).

Record Role : Type := mk_Role {
  Role_id : string;
  Role_name : string;
  Role_extra : RawMap
}.

Definition Role_fields : list string := ["id"; "name"].

Definition validate_Role (input_data : RawMap) : V Role :=
  pure mk_Role
    <*> required str_validator "id" input_data
    <*> required str_validator "name" input_data
    <*> pure (extra_allow Role_fields input_data).

Inductive LoginStatus : Type :=
  OFFLINE | ONLINE | CONNECT | DISCONNECT | RECONNECT.

Definition LoginStatus_of_int (z : Z) : option LoginStatus :=
  match z with
  | 0 => Some OFFLINE
  | 1 => Some ONLINE
  | 2 => Some CONNECT
  | 3 => Some DISCONNECT
  | 4 => Some RECONNECT
  | _ => None
  end.

Record Login : Type := mk_Login {
  Login_user : option User;
  Login_self_id : option string;
  Login_platform : option string;
  Login_status : LoginStatus;
  Login_extra : RawMap
}.

Definition Login_fields : list string := ["user"; "self_id"; "platform"; "status"].

Definition validate_Login (input_data : RawMap) : V Login :=
  pure mk_Login
    <*> optional (Model_validate validate_User) "user" input_data
    <*> optional str_validator "self_id" input_data
    <*> optional str_validator "platform" input_data
    <*> required (enum_validator LoginStatus_of_int) "status" input_data
    <*> pure (extra_allow Login_fields input_data).

Inductive Opcode : Type := EVENT | PING | PONG | IDENTIFY | READY.

Definition Opcode_value (o : Opcode) : Z :=
  match o with
  | EVENT => 0
  | PING => 1
  | PONG => 2
  | IDENTIFY => 3
  | READY => 4
  end.

Definition Opcode_of_int (z : Z) : option Opcode :=
  match z with
  | 0 => Some EVENT
  | 1 => Some PING
  | 2 => Some PONG
  | 3 => Some IDENTIFY
  | 4 => Some READY
  | _ => None
  end.

(** [Literal[o]]: the value is looked up in the table of permitted
    choices, so it must hash and compare equal to the member. *)
Definition literal_validator (o : Opcode) (v : PyVal) : V Opcode :=
  if key_eqb v (PInt (Opcode_value o)) then pure o
  else invalid WrongConstantError.

(** The envelope.  Models without [extra=Extra.allow] ignore unknown
    keys. *)
Record Payload : Type := mk_Payload {
  Payload_op : Opcode;
  Payload_body : option RawMap
}.

Definition validate_Payload (input_data : RawMap) : V Payload :=
  pure mk_Payload
    <*> required (enum_validator Opcode_of_int) "op" input_data
    <*> optional dict_validator "body" input_data.

Record Identify : Type := mk_Identify {
  Identify_token : option string;
  Identify_sequence : option Z
}.

Definition validate_Identify (input_data : RawMap) : V Identify :=
  pure mk_Identify
    <*> optional str_validator "token" input_data
    <*> optional int_validator "sequence" input_data.

Record Ready : Type := mk_Ready { Ready_logins : list Login }.

Definition validate_Ready (input_data : RawMap) : V Ready :=
  pure mk_Ready
    <*> required (list_validator (Model_validate validate_Login))
          "logins" input_data.

Record IdentifyPayload : Type := mk_IdentifyPayload {
  IdentifyPayload_op : Opcode;
  IdentifyPayload_body : Identify
}.

Definition validate_IdentifyPayload (input_data : RawMap) : V IdentifyPayload :=
  pure mk_IdentifyPayload
    <*> defaulted IDENTIFY (literal_validator IDENTIFY) "op" input_data
    <*> required (Model_validate validate_Identify) "body" input_data.

Record ReadyPayload : Type := mk_ReadyPayload {
  ReadyPayload_op : Opcode;
  ReadyPayload_body : Ready
}.

Definition validate_ReadyPayload (input_data : RawMap) : V ReadyPayload :=
  pure mk_ReadyPayload
    <*> defaulted READY (literal_validator READY) "op" input_data
    <*> required (Model_validate validate_Ready) "body" input_data.

Record PingPayload : Type := mk_PingPayload {
  PingPayload_op : Opcode;
  PingPayload_body : option RawMap
}.

Definition validate_PingPayload (input_data : RawMap) : V PingPayload :=
  pure mk_PingPayload
    <*> defaulted PING (literal_validator PING) "op" input_data
    <*> optional dict_validator "body" input_data.

Record PongPayload : Type := mk_PongPayload {
  PongPayload_op : Opcode;
  PongPayload_body : option RawMap
}.

Definition validate_PongPayload (input_data : RawMap) : V PongPayload :=
  pure mk_PongPayload
    <*> defaulted PONG (literal_validator PONG) "op" input_data
    <*> optional dict_validator "body" input_data.

(** ** Epoch milliseconds *)

(** The epoch milliseconds that fall within the seconds
    [datetime.fromtimestamp] accepts. *)
Definition valid_millis (t : Z) : Prop :=
  min_seconds * 1000 <= t <= max_seconds * 1000 + 999.

(** The milliseconds of a point in time, rounded to the nearest. *)
Definition to_millis (d : datetime) : Z := round_half_even (micros d) 1000.

(** ** Open schema *)

(** The part of a raw map that names declared fields. *)
Definition declared (fields : list string) (input_data : RawMap) : RawMap :=
  filter (fun kv => mem_str (fst kv) fields) input_data.

Definition Channel_with_extra (c : Channel) (extra : RawMap) : Channel :=
  mk_Channel (Channel_id c) (Channel_name c) (Channel_type c)
    (Channel_parent_id c) extra.

Definition Guild_with_extra (g : Guild) (extra : RawMap) : Guild :=
  mk_Guild (Guild_id g) (Guild_name g) (Guild_avatar g) extra.

Definition User_with_extra (u : User) (extra : RawMap) : User :=
  mk_User (User_id u) (User_name u) (User_avatar u) (User_is_bot u) extra.

Definition InnerMember_with_extra (x : InnerMember) (extra : RawMap)
  : InnerMember :=
  mk_InnerMember (InnerMember_user x) (InnerMember_name x)
    (InnerMember_avatar x) (InnerMember_joined_at x) extra.

Definition OuterMember_with_extra (x : OuterMember) (extra : RawMap)
  : OuterMember :=
  mk_OuterMember (OuterMember_user x) (OuterMember_name x)
    (OuterMember_avatar x) (OuterMember_joined_at x) extra.

Definition Role_with_extra (r : Role) (extra : RawMap) : Role :=
  mk_Role (Role_id r) (Role_name r) extra.

Definition Login_with_extra (x : Login) (extra : RawMap) : Login :=
  mk_Login (Login_user x) (Login_self_id x) (Login_platform x)
    (Login_status x) extra.

(** A validator keeps an open schema when unknown keys neither decide
    whether a raw map validates nor get lost: the map validates as its
    declared part does, with the same fields, and every key that names no
    field is found on the decoded value with the value it had. *)
Definition open_schema {A : Type} (fields : list string)
  (validate : RawMap -> V A) (extra : A -> RawMap)
  (with_extra : A -> RawMap -> A) : Prop :=
  forall (m : RawMap) (l : list LogRecord) (x : A),
    (validate (declared fields m) = (l, Valid x) ->
     validate m = (l, Valid (with_extra x (extra_allow fields m))))
    /\ (validate m = (l, Valid x) ->
        forall k, mem_str k fields = false -> get k (extra x) = get k m).

(** An [OuterMember] read as an [InnerMember]. *)
Definition OuterMember_as_inner (x : OuterMember) : InnerMember :=
  mk_InnerMember (Some (OuterMember_user x)) (OuterMember_name x)
    (OuterMember_avatar x) (Some (OuterMember_joined_at x))
    (OuterMember_extra x).

(** ** Messages, events and the payload union

    [Element], [parse] and [log] come from the module [utils] of the
    package.  The markup parser and the element type are parameters of
    the development; [log] appends a record to the log. *)

Section Models.

(** Modelled from the spec: the element type of [utils], "a structured
    content node produced by parsing inline markup text". *)
Variable Element : Type.

(** Modelled from the spec: [parse(text) -> sequence<Element>] of [utils],
    the markup parser, which "may itself fail with a parser-specific
    error"; [None] stands for that failure. *)
Variable parse : string -> option (list Element).

(** Modelled from the spec: how pydantic reads one raw item of a content
    list as an [Element] of [utils]; [None] when the item is rejected. *)
Variable validate_Element : PyVal -> option Element.

(** Modelled from the spec: [log(level, message)] of [utils], the
    "fire-and-forget diagnostic sink". *)
Definition log (level message : string) : V unit :=
  ([mk_log level message], Valid tt).

(** What [parse_content] hands on: the raw value it was given, or the
    elements the parser built. *)
Inductive Content : Type :=
| Raw (v : PyVal)
| Parsed (elements : list Element).

Record InnerMessage : Type := mk_InnerMessage {
  InnerMessage_id : string;
  InnerMessage_content : list Element;
  InnerMessage_channel : option Channel;
  InnerMessage_guild : option Guild;
  InnerMessage_member : option InnerMember;
  InnerMessage_user : option User;
  InnerMessage_created_at : option datetime;
  InnerMessage_updated_at : option datetime;
  InnerMessage_extra : RawMap
}.

Definition Message_fields : list string :=
  ["id"; "content"; "channel"; "guild"; "member"; "user"; "created_at";
   "updated_at"].

Definition ensure_content (values : RawMap) : V RawMap :=
  if has_key "content" values then pure values
  else
    _ <- log "WARNING"
           ("received message without content, "
            ++ "this may be caused by a bug of Satori Server.") ;;
    pure (set_key "content" (PStr "Unknown") values).

Definition parse_content (v : PyVal) : Raises Content :=
  match v with
  | PList _ => Return (Raw v)
  | PNone => Return (Raw PNone)
  | PStr s =>
      match parse s with
      | Some elements => Return (Parsed elements)
      | None => Raise ParserError
      end
  | _ => Raise ValueError_content_must_be_str
  end.

Definition parse_created_at (v : PyVal) : Raises PyVal :=
  match v with
  | PNone => Return PNone
  | PDatetime _ => Return v
  | _ =>
      match py_int v with
      | Return timestamp =>
          bind_raises (fromtimestamp_ms timestamp)
            (fun t => Return (PDatetime t))
      | Raise e =>
          if is_ValueError e then Raise (ValueError_invalid_timestamp v)
          else Raise e
      end
  end.

Definition parse_updated_at (v : PyVal) : Raises PyVal :=
  match v with
  | PNone => Return PNone
  | PDatetime _ => Return v
  | _ =>
      match py_int v with
      | Return timestamp =>
          bind_raises (fromtimestamp_ms timestamp)
            (fun t => Return (PDatetime t))
      | Raise e =>
          if is_ValueError e then Raise (ValueError_invalid_timestamp v)
          else Raise e
      end
  end.

Definition Element_validator (v : PyVal) : V Element :=
  match validate_Element v with
  | Some e => pure e
  | None => invalid ElementError
  end.

(** [content: List[Element]] behind its pre-validator. *)
Definition content_field (input_data : RawMap) : V (list Element) :=
  match get "content" input_data with
  | None => at_loc (LKey "content") (invalid MissingError)
  | Some v =>
      at_loc (LKey "content")
        (w <- apply_validator (parse_content v) ;;
         match w with
         | Raw PNone => invalid NoneIsNotAllowedError
         | Raw w' => list_validator Element_validator w'
         | Parsed elements => pure elements
         end)
  end.

Definition validate_InnerMessage (input_data : RawMap) : V InnerMessage :=
  values <- ensure_content input_data ;;
  pure mk_InnerMessage
    <*> required str_validator "id" values
    <*> content_field values
    <*> optional (Model_validate validate_Channel) "channel" values
    <*> optional (Model_validate validate_Guild) "guild" values
    <*> optional (Model_validate validate_InnerMember) "member" values
    <*> optional (Model_validate validate_User) "user" values
    <*> optional_with parse_created_at datetime_validator "created_at" values
    <*> optional_with parse_updated_at datetime_validator "updated_at" values
    <*> pure (extra_allow Message_fields values).

Record OuterMessage : Type := mk_OuterMessage {
  OuterMessage_id : string;
  OuterMessage_content : list Element;
  OuterMessage_channel : Channel;
  OuterMessage_guild : Guild;
  OuterMessage_member : InnerMember;
  OuterMessage_user : User;
  OuterMessage_created_at : datetime;
  OuterMessage_updated_at : datetime;
  OuterMessage_extra : RawMap
}.

Definition validate_OuterMessage (input_data : RawMap) : V OuterMessage :=
  values <- ensure_content input_data ;;
  pure mk_OuterMessage
    <*> required str_validator "id" values
    <*> content_field values
    <*> required (Model_validate validate_Channel) "channel" values
    <*> required (Model_validate validate_Guild) "guild" values
    <*> required (Model_validate validate_InnerMember) "member" values
    <*> required (Model_validate validate_User) "user" values
    <*> required_with parse_created_at datetime_validator "created_at" values
    <*> required_with parse_updated_at datetime_validator "updated_at" values
    <*> pure (extra_allow Message_fields values).

Record Event : Type := mk_Event {
  Event_id : Z;
  Event_type : string;
  Event_platform : string;
  Event_self_id : string;
  Event_timestamp : datetime;
  Event_channel : option Channel;
  Event_guild : option Guild;
  Event_login : option Login;
  Event_member : option InnerMember;
  Event_message : option InnerMessage;
  Event_operator : option User;
  Event_role : option Role;
  Event_user : option User;
  Event_extra : RawMap
}.

Definition Event_fields : list string :=
  ["id"; "type"; "platform"; "self_id"; "timestamp"; "channel"; "guild";
   "login"; "member"; "message"; "operator"; "role"; "user"].

Definition parse_timestamp (v : PyVal) : Raises PyVal :=
  match v with
  | PNone => Return PNone
  | PDatetime _ => Return v
  | _ =>
      match py_int v with
      | Return timestamp =>
          bind_raises (fromtimestamp_ms timestamp)
            (fun t => Return (PDatetime t))
      | Raise e =>
          if is_ValueError e then Raise (ValueError_invalid_timestamp v)
          else Raise e
      end
  end.

Definition validate_Event (input_data : RawMap) : V Event :=
  pure mk_Event
    <*> required int_validator "id" input_data
    <*> required str_validator "type" input_data
    <*> required str_validator "platform" input_data
    <*> required str_validator "self_id" input_data
    <*> required_with parse_timestamp datetime_validator "timestamp" input_data
    <*> optional (Model_validate validate_Channel) "channel" input_data
    <*> optional (Model_validate validate_Guild) "guild" input_data
    <*> optional (Model_validate validate_Login) "login" input_data
    <*> optional (Model_validate validate_InnerMember) "member" input_data
    <*> optional (Model_validate validate_InnerMessage) "message" input_data
    <*> optional (Model_validate validate_User) "operator" input_data
    <*> optional (Model_validate validate_Role) "role" input_data
    <*> optional (Model_validate validate_User) "user" input_data
    <*> pure (extra_allow Event_fields input_data).

Record EventPayload : Type := mk_EventPayload {
  EventPayload_op : Opcode;
  EventPayload_body : Event
}.

Definition validate_EventPayload (input_data : RawMap) : V EventPayload :=
  pure mk_EventPayload
    <*> defaulted EVENT (literal_validator EVENT) "op" input_data
    <*> required (Model_validate validate_Event) "body" input_data.

(** [PayloadType]: the union of the five concrete payloads and the
    envelope. *)
Inductive PayloadType : Type :=
| AnEventPayload (p : EventPayload)
| APingPayload (p : PingPayload)
| APongPayload (p : PongPayload)
| AnIdentifyPayload (p : IdentifyPayload)
| AReadyPayload (p : ReadyPayload)
| APayload (p : Payload).

(** A union takes the first member that validates; when none does, the
    errors of all of them are reported. *)
Definition or_else {A : Type} (v w : V A) : V A :=
  match v with
  | (l, Invalid errs) =>
      match w with
      | (l', Invalid errs') => (l ++ l', Invalid (errs ++ errs'))
      | (l', o) => (l ++ l', o)
      end
  | _ => v
  end.

(** [parse_obj_as(PayloadType, obj)] *)
Definition validate_PayloadType (obj : PyVal) : V PayloadType :=
  match obj with
  | PNone => invalid NoneIsNotAllowedError
  | _ =>
      or_else (fmap AnEventPayload (Model_validate validate_EventPayload obj))
     (or_else (fmap APingPayload (Model_validate validate_PingPayload obj))
     (or_else (fmap APongPayload (Model_validate validate_PongPayload obj))
     (or_else (fmap AnIdentifyPayload
                 (Model_validate validate_IdentifyPayload obj))
     (or_else (fmap AReadyPayload (Model_validate validate_ReadyPayload obj))
              (fmap APayload (Model_validate validate_Payload obj))))))
  end.

Definition InnerMessage_with_extra (x : InnerMessage) (extra : RawMap)
  : InnerMessage :=
  mk_InnerMessage (InnerMessage_id x) (InnerMessage_content x)
    (InnerMessage_channel x) (InnerMessage_guild x) (InnerMessage_member x)
    (InnerMessage_user x) (InnerMessage_created_at x)
    (InnerMessage_updated_at x) extra.

Definition InnerMessage_with_content (x : InnerMessage)
  (content : list Element) : InnerMessage :=
  mk_InnerMessage (InnerMessage_id x) content
    (InnerMessage_channel x) (InnerMessage_guild x) (InnerMessage_member x)
    (InnerMessage_user x) (InnerMessage_created_at x)
    (InnerMessage_updated_at x) (InnerMessage_extra x).

Definition OuterMessage_with_extra (x : OuterMessage) (extra : RawMap)
  : OuterMessage :=
  mk_OuterMessage (OuterMessage_id x) (OuterMessage_content x)
    (OuterMessage_channel x) (OuterMessage_guild x) (OuterMessage_member x)
    (OuterMessage_user x) (OuterMessage_created_at x)
    (OuterMessage_updated_at x) extra.

(** An [OuterMessage] read as an [InnerMessage]. *)
Definition OuterMessage_as_inner (x : OuterMessage) : InnerMessage :=
  mk_InnerMessage (OuterMessage_id x) (OuterMessage_content x)
    (Some (OuterMessage_channel x)) (Some (OuterMessage_guild x))
    (Some (OuterMessage_member x)) (Some (OuterMessage_user x))
    (Some (OuterMessage_created_at x)) (Some (OuterMessage_updated_at x))
    (OuterMessage_extra x).

Definition Event_with_extra (x : Event) (extra : RawMap) : Event :=
  mk_Event (Event_id x) (Event_type x) (Event_platform x) (Event_self_id x)
    (Event_timestamp x) (Event_channel x) (Event_guild x) (Event_login x)
    (Event_member x) (Event_message x) (Event_operator x) (Event_role x)
    (Event_user x) extra.

(** The payload a ping or pong envelope decodes to. *)
Definition ping_or_pong (o : Opcode) (body : option RawMap) : PayloadType :=
  match o with
  | PONG => APongPayload (mk_PongPayload PONG body)
  | _ => APingPayload (mk_PingPayload PING body)
  end.

(** The opcode a decoded payload carries. *)
Definition payload_op (p : PayloadType) : Opcode :=
  match p with
  | AnEventPayload q => EventPayload_op q
  | APingPayload q => PingPayload_op q
  | APongPayload q => PongPayload_op q
  | AnIdentifyPayload q => IdentifyPayload_op q
  | AReadyPayload q => ReadyPayload_op q
  | APayload q => Payload_op q
  end.

End Models.

(** ** A parser for closed examples *)

(** A stand-in for the markup parser: elements are text nodes, a string
    parses to the one text node it spells, and a raw item is an element
    when it is a string. *)
Definition text_parse (s : string) : option (list string) := Some [s].

Definition text_element (v : PyVal) : option string :=
  match v with
  | PStr s => Some s
  | _ => None
  end.

(** * Properties *)

(** ** Outcomes *)

Definition is_valid {A : Type} (v : V A) : bool :=
  match outcome v with Valid _ => true | _ => false end.

(** A validation that emits no log record. *)
Definition silent {A : Type} (v : V A) : Prop := logs v = [].

(** A validation that no exception escapes. *)
Definition contained {A : Type} (v : V A) : Prop :=
  forall e, outcome v <> Escapes e.

(** The record [ensure_content] logs. *)
Definition no_content_warning : LogRecord :=
  mk_log "WARNING"
    "received message without content, this may be caused by a bug of Satori Server.".

(** A validation that fails, and whose validation error lists [e]. *)
Definition reports {A : Type} (e : Error) (v : V A) : Prop :=
  is_valid v = false
  /\ forall errs, outcome v = Invalid errs -> In e errs.

(** A model that never validates a raw map without the key [name]. *)
Definition rejects_missing {A : Type} (validate : RawMap -> V A)
  (name : string) : Prop :=
  forall m, get name m = None -> is_valid (validate m) = false.

(** A validation that logs nothing, or the one warning of
    [ensure_content]. *)
Definition at_most_one_warning {A : Type} (v : V A) : Prop :=
  logs v = [] \/ logs v = [no_content_warning].

(** A model that reads only its declared fields: unknown keys change
    nothing. *)
Definition closed_schema {A : Type} (fields : list string)
  (validate : RawMap -> V A) : Prop :=
  forall m, validate m = validate (declared fields m).

Lemma ap_valid_inv {A B : Type} (f : V (A -> B)) (a : V A) l y :
  ap f a = (l, Valid y) ->
  exists l1 g l2 x,
    f = (l1, Valid g) /\ a = (l2, Valid x) /\ l = l1 ++ l2 /\ y = g x.
Proof.
  destruct f as [l1 [g | errs | e]], a as [l2 [x | errs' | e']];
    simpl; intros H; inversion H; subst.
  exists l1, g, l2, x; repeat split; reflexivity.
Qed.

Lemma ap_valid {A B : Type} (f : V (A -> B)) (a : V A) l1 g l2 x :
  f = (l1, Valid g) -> a = (l2, Valid x) -> ap f a = (l1 ++ l2, Valid (g x)).
Proof. intros -> ->; reflexivity. Qed.

Lemma ap_not_valid_l {A B : Type} (f : V (A -> B)) (a : V A) :
  is_valid f = false -> is_valid (ap f a) = false.
Proof.
  destruct f as [l1 [g | errs | e]], a as [l2 [x | errs' | e']];
    simpl; intros H; try discriminate; reflexivity.
Qed.

Lemma ap_not_valid_r {A B : Type} (f : V (A -> B)) (a : V A) :
  is_valid a = false -> is_valid (ap f a) = false.
Proof.
  destruct f as [l1 [g | errs | e]], a as [l2 [x | errs' | e']];
    simpl; intros H; try discriminate; reflexivity.
Qed.

Lemma fmap_not_valid {A B : Type} (g : A -> B) (v : V A) :
  is_valid v = false -> is_valid (fmap g v) = false.
Proof.
  unfold is_valid; destruct v as [l [x | errs | e]]; simpl; intros H;
    congruence.
Qed.

Lemma at_loc_not_valid {A : Type} (i : LocItem) (v : V A) :
  is_valid (at_loc i v) = is_valid v.
Proof. destruct v as [l [x | errs | e]]; reflexivity. Qed.

Lemma is_valid_false {A : Type} (v : V A) :
  is_valid v = false <-> forall a, outcome v <> Valid a.
Proof.
  unfold is_valid; destruct v as [l [x | errs | e]]; simpl; split;
    try congruence; intros H; try reflexivity.
  exfalso; exact (H x eq_refl).
Qed.

Lemma or_else_not_valid {A : Type} (v w : V A) :
  is_valid v = false -> is_valid w = false -> is_valid (or_else v w) = false.
Proof.
  destruct v as [l [x | errs | e]], w as [l' [x' | errs' | e']];
    simpl; intros H H'; try discriminate; reflexivity.
Qed.

Lemma or_else_invalid_inv {A : Type} (v w : V A) errs :
  outcome (or_else v w) = Invalid errs ->
  exists e1 e2,
    outcome v = Invalid e1 /\ outcome w = Invalid e2 /\ errs = e1 ++ e2.
Proof.
  destruct v as [l [x | e1 | e]], w as [l' [x' | e2 | e']];
    simpl; intros H; inversion H; subst.
  exists e1, e2; repeat split; reflexivity.
Qed.

Lemma or_else_valid_l {A : Type} (v w : V A) l x :
  v = (l, Valid x) -> or_else v w = (l, Valid x).
Proof. intros ->; reflexivity. Qed.

Lemma or_else_invalid_l {A : Type} (v w : V A) l errs l' x :
  v = (l, Invalid errs) -> w = (l', Valid x) ->
  or_else v w = (l ++ l', Valid x).
Proof. intros -> ->; reflexivity. Qed.

(** ** Silence: only [ensure_content] logs *)

Lemma silent_pure {A : Type} (a : A) : silent (pure a).
Proof. reflexivity. Qed.

Lemma silent_invalid {A : Type} (k : ErrorKind) : silent (@invalid A k).
Proof. reflexivity. Qed.

Lemma silent_ap {A B : Type} (f : V (A -> B)) (a : V A) :
  silent f -> silent a -> silent (ap f a).
Proof.
  unfold silent, logs.
  destruct f as [l1 [g | errs | e]], a as [l2 [x | errs' | e']];
    simpl; intros -> ->; reflexivity.
Qed.

Lemma silent_bind {A B : Type} (v : V A) (k : A -> V B) :
  silent v -> (forall a, silent (k a)) -> silent (bind v k).
Proof.
  unfold silent, logs.
  destruct v as [l [x | errs | e]]; simpl; intros -> Hk; try reflexivity.
  specialize (Hk x). destruct (k x) as [l' o]; simpl in *; exact Hk.
Qed.

Lemma silent_fmap {A B : Type} (g : A -> B) (v : V A) :
  silent v -> silent (fmap g v).
Proof. unfold silent, logs; destruct v as [l [x | errs | e]]; auto. Qed.

Lemma silent_at_loc {A : Type} (i : LocItem) (v : V A) :
  silent v -> silent (at_loc i v).
Proof. unfold silent, logs; destruct v as [l [x | errs | e]]; auto. Qed.

Lemma silent_apply_validator {A : Type} (r : Raises A) :
  silent (apply_validator r).
Proof. destruct r as [a | e]; simpl; [| destruct (caught e)]; reflexivity. Qed.

Lemma silent_str_validator v : silent (str_validator v).
Proof. destruct v; reflexivity. Qed.

Lemma silent_int_validator v : silent (int_validator v).
Proof.
  destruct v; simpl; try reflexivity;
    match goal with |- context [match ?x with _ => _ end] => destruct x end;
    reflexivity.
Qed.

Lemma silent_bool_validator v : silent (bool_validator v).
Proof.
  destruct v as [| b | z | s | l | d | t]; simpl; try reflexivity.
  - destruct z as [| [p | p |] | p]; reflexivity.
  - repeat match goal with
           | |- context [if ?c then _ else _] => destruct c
           end; reflexivity.
Qed.

Lemma silent_datetime_validator v : silent (datetime_validator v).
Proof. destruct v; reflexivity. Qed.

Lemma silent_enum_validator {A : Type} (of_int : Z -> option A) v :
  silent (enum_validator of_int v).
Proof.
  apply silent_bind; [apply silent_int_validator |].
  intros z; destruct (of_int z); reflexivity.
Qed.

Lemma silent_literal_validator o v : silent (literal_validator o v).
Proof. unfold literal_validator; destruct (key_eqb _ _); reflexivity. Qed.

Lemma silent_validate_field {A : Type} pre (validate : PyVal -> V A) v :
  (forall w, silent (validate w)) -> silent (validate_field pre validate v).
Proof.
  intros H; apply silent_bind; [apply silent_apply_validator |].
  intros w; destruct w; try apply silent_fmap; auto; reflexivity.
Qed.

Lemma silent_not_none {A : Type} (v : V (option A)) :
  silent v -> silent (not_none v).
Proof.
  intros H; apply silent_bind; [exact H |].
  intros [a |]; reflexivity.
Qed.

Lemma silent_required_with {A : Type} pre (validate : PyVal -> V A) name m :
  (forall w, silent (validate w)) -> silent (required_with pre validate name m).
Proof.
  intros H; unfold required_with; destruct (get name m).
  - apply silent_at_loc, silent_not_none, silent_validate_field, H.
  - reflexivity.
Qed.

Lemma silent_optional_with {A : Type} pre (validate : PyVal -> V A) name m :
  (forall w, silent (validate w)) -> silent (optional_with pre validate name m).
Proof.
  intros H; unfold optional_with; destruct (get name m).
  - apply silent_at_loc, silent_validate_field, H.
  - reflexivity.
Qed.

Lemma silent_defaulted {A : Type} (a : A) (validate : PyVal -> V A) name m :
  (forall w, silent (validate w)) -> silent (defaulted a validate name m).
Proof.
  intros H; unfold defaulted; destruct (get name m).
  - apply silent_at_loc, silent_not_none, silent_validate_field, H.
  - reflexivity.
Qed.

Lemma silent_Model_validate {A : Type} (validate : RawMap -> V A) v :
  (forall m, silent (validate m)) -> silent (Model_validate validate v).
Proof.
  intros H; unfold Model_validate.
  destruct v; try reflexivity; auto;
    destruct (py_dict _); try reflexivity;
    destruct (keywords _); auto; reflexivity.
Qed.

Lemma silent_validate_items {A : Type} (validate : PyVal -> V A) items :
  (forall w, silent (validate w)) ->
  forall i, silent (validate_items validate i items).
Proof.
  intros H; induction items as [| x items IH]; intros i;
    cbn [validate_items].
  - reflexivity.
  - apply silent_ap; [apply silent_ap |]; [reflexivity | | apply IH].
    apply silent_at_loc, H.
Qed.

Lemma silent_list_validator {A : Type} (validate : PyVal -> V A) v :
  (forall w, silent (validate w)) -> silent (list_validator validate v).
Proof.
  intros H; destruct v; try reflexivity.
  apply silent_validate_items, H.
Qed.

Lemma silent_key_validator k : silent (key_validator k).
Proof.
  apply silent_at_loc; destruct k; try apply silent_str_validator; reflexivity.
Qed.

Lemma silent_validate_mapping d : forall r, silent (validate_mapping r d).
Proof.
  induction d as [| [k v] d IH]; intros r; simpl.
  - reflexivity.
  - pose proof (silent_key_validator k) as Hk.
    destruct (key_validator k) as [l [k' | errs | e]]; auto;
      unfold silent, logs in Hk; simpl in Hk; subst l;
      repeat apply silent_ap; auto; reflexivity.
Qed.

Lemma silent_dict_validator v : silent (dict_validator v).
Proof.
  destruct v; try reflexivity; simpl;
    try (destruct (dict_update _ _); [apply silent_validate_mapping | reflexivity]).
  destruct s; [apply silent_validate_mapping | reflexivity].
Qed.

Create HintDb silent.
#[export] Hint Resolve silent_pure silent_invalid silent_ap silent_fmap
  silent_at_loc silent_str_validator silent_int_validator
  silent_bool_validator silent_datetime_validator silent_enum_validator
  silent_literal_validator silent_required_with silent_optional_with
  silent_defaulted silent_Model_validate silent_list_validator
  silent_dict_validator : silent.

Lemma silent_validate_Channel m : silent (validate_Channel m).
Proof. unfold validate_Channel, required, optional; auto 20 with silent. Qed.

Lemma silent_validate_Guild m : silent (validate_Guild m).
Proof. unfold validate_Guild, required, optional; auto 20 with silent. Qed.

Lemma silent_validate_User m : silent (validate_User m).
Proof. unfold validate_User, required, optional; auto 20 with silent. Qed.

#[export] Hint Resolve silent_validate_Channel silent_validate_Guild
  silent_validate_User : silent.

Lemma silent_validate_InnerMember m : silent (validate_InnerMember m).
Proof. unfold validate_InnerMember, required, optional; auto 20 with silent. Qed.

Lemma silent_validate_OuterMember m : silent (validate_OuterMember m).
Proof. unfold validate_OuterMember, required, optional; auto 20 with silent. Qed.

Lemma silent_validate_Role m : silent (validate_Role m).
Proof. unfold validate_Role, required, optional; auto 20 with silent. Qed.

Lemma silent_validate_Login m : silent (validate_Login m).
Proof. unfold validate_Login, required, optional; auto 20 with silent. Qed.

#[export] Hint Resolve silent_validate_InnerMember silent_validate_OuterMember
  silent_validate_Role silent_validate_Login : silent.

Lemma silent_validate_Payload m : silent (validate_Payload m).
Proof. unfold validate_Payload, required, optional; auto 20 with silent. Qed.

Lemma silent_validate_Identify m : silent (validate_Identify m).
Proof. unfold validate_Identify, required, optional; auto 20 with silent. Qed.

Lemma silent_validate_Ready m : silent (validate_Ready m).
Proof. unfold validate_Ready, required, optional; auto 20 with silent. Qed.

#[export] Hint Resolve silent_validate_Payload silent_validate_Identify
  silent_validate_Ready : silent.

Lemma silent_validate_IdentifyPayload m : silent (validate_IdentifyPayload m).
Proof. unfold validate_IdentifyPayload, required; auto 20 with silent. Qed.

Lemma silent_validate_ReadyPayload m : silent (validate_ReadyPayload m).
Proof. unfold validate_ReadyPayload, required; auto 20 with silent. Qed.

Lemma silent_validate_PingPayload m : silent (validate_PingPayload m).
Proof. unfold validate_PingPayload, optional; auto 20 with silent. Qed.

Lemma silent_validate_PongPayload m : silent (validate_PongPayload m).
Proof. unfold validate_PongPayload, optional; auto 20 with silent. Qed.

#[export] Hint Resolve silent_validate_IdentifyPayload
  silent_validate_ReadyPayload silent_validate_PingPayload
  silent_validate_PongPayload : silent.

(** ** Containment: what can let an exception escape *)

Lemma contained_pure {A : Type} (a : A) : contained (pure a).
Proof. intros e; discriminate. Qed.

Lemma contained_invalid {A : Type} (k : ErrorKind) : contained (@invalid A k).
Proof. intros e; discriminate. Qed.

Lemma contained_ap {A B : Type} (f : V (A -> B)) (a : V A) :
  contained f -> contained a -> contained (ap f a).
Proof.
  unfold contained, outcome.
  destruct f as [l1 [g | errs | e]], a as [l2 [x | errs' | e']];
    simpl; intros Hf Ha e0 H; try discriminate;
    try exact (Ha _ eq_refl); exact (Hf _ eq_refl).
Qed.

Lemma contained_bind {A B : Type} (v : V A) (k : A -> V B) :
  contained v -> (forall a, contained (k a)) -> contained (bind v k).
Proof.
  unfold contained, outcome.
  destruct v as [l [x | errs | e]]; simpl; intros Hv Hk e0 H;
    try discriminate.
  - specialize (Hk x e0). destruct (k x) as [l' o]; exact (Hk H).
  - exact (Hv _ eq_refl).
Qed.

Lemma contained_fmap {A B : Type} (g : A -> B) (v : V A) :
  contained v -> contained (fmap g v).
Proof.
  unfold contained, outcome.
  destruct v as [l [x | errs | e]]; simpl; intros Hv e0 H; try discriminate.
  exact (Hv _ eq_refl).
Qed.

Lemma contained_at_loc {A : Type} (i : LocItem) (v : V A) :
  contained v -> contained (at_loc i v).
Proof.
  unfold contained, outcome.
  destruct v as [l [x | errs | e]]; simpl; intros Hv e0 H; try discriminate.
  exact (Hv _ eq_refl).
Qed.

Lemma contained_str_validator v : contained (str_validator v).
Proof. destruct v; intros e; discriminate. Qed.

Lemma contained_int_validator v : contained (int_validator v).
Proof.
  destruct v; simpl; intros e; try discriminate;
    match goal with |- context [match ?x with _ => _ end] => destruct x end;
    discriminate.
Qed.

Lemma contained_bool_validator v : contained (bool_validator v).
Proof.
  destruct v as [| b | z | s | l | d | t]; simpl; intros e; try discriminate.
  - destruct z as [| [p | p |] | p]; discriminate.
  - repeat match goal with
           | |- context [if ?c then _ else _] => destruct c
           end; discriminate.
Qed.

Lemma contained_enum_validator {A : Type} (of_int : Z -> option A) v :
  contained (enum_validator of_int v).
Proof.
  apply contained_bind; [apply contained_int_validator |].
  intros z; destruct (of_int z); intros e; discriminate.
Qed.

Lemma contained_literal_validator o v : contained (literal_validator o v).
Proof.
  unfold literal_validator; destruct (key_eqb _ _); intros e; discriminate.
Qed.

Lemma contained_validate_field {A : Type} (validate : PyVal -> V A) v :
  (forall w, contained (validate w)) ->
  contained (validate_field no_pre validate v).
Proof.
  intros H; apply contained_bind; [apply contained_pure |].
  intros w; destruct w; try apply contained_fmap; auto; apply contained_pure.
Qed.

Lemma contained_not_none {A : Type} (v : V (option A)) :
  contained v -> contained (not_none v).
Proof.
  intros H; apply contained_bind; [exact H |].
  intros [a |]; intros e; discriminate.
Qed.

Lemma contained_required {A : Type} (validate : PyVal -> V A) name m :
  (forall w, contained (validate w)) -> contained (required validate name m).
Proof.
  intros H; unfold required, required_with; destruct (get name m).
  - apply contained_at_loc, contained_not_none, contained_validate_field, H.
  - intros e; discriminate.
Qed.

Lemma contained_optional {A : Type} (validate : PyVal -> V A) name m :
  (forall w, contained (validate w)) -> contained (optional validate name m).
Proof.
  intros H; unfold optional, optional_with; destruct (get name m).
  - apply contained_at_loc, contained_validate_field, H.
  - intros e; discriminate.
Qed.

Lemma contained_defaulted {A : Type} (a : A) (validate : PyVal -> V A) name m :
  (forall w, contained (validate w)) -> contained (defaulted a validate name m).
Proof.
  intros H; unfold defaulted; destruct (get name m).
  - apply contained_at_loc, contained_not_none, contained_validate_field, H.
  - intros e; discriminate.
Qed.

Lemma contained_Model_validate {A : Type} (validate : RawMap -> V A) v :
  (forall m, contained (validate m)) -> contained (Model_validate validate v).
Proof.
  intros H; unfold Model_validate.
  destruct v; try (intros e; discriminate); auto;
    destruct (py_dict _); try (intros e; discriminate);
    destruct (keywords _); auto; intros e; discriminate.
Qed.

Lemma contained_validate_items {A : Type} (validate : PyVal -> V A) items :
  (forall w, contained (validate w)) ->
  forall i, contained (validate_items validate i items).
Proof.
  intros H; induction items as [| x items IH]; intros i;
    cbn [validate_items].
  - apply contained_pure.
  - apply contained_ap; [apply contained_ap |];
      [apply contained_pure | | apply IH].
    apply contained_at_loc, H.
Qed.

Lemma contained_list_validator {A : Type} (validate : PyVal -> V A) v :
  (forall w, contained (validate w)) -> contained (list_validator validate v).
Proof.
  intros H; destruct v; try (intros e; discriminate).
  apply contained_validate_items, H.
Qed.

Lemma contained_key_validator k : contained (key_validator k).
Proof.
  apply contained_at_loc; destruct k; try apply contained_str_validator;
    intros e; discriminate.
Qed.

Lemma contained_validate_mapping d : forall r, contained (validate_mapping r d).
Proof.
  induction d as [| [k v] d IH]; intros r; cbn [validate_mapping].
  - apply contained_pure.
  - pose proof (contained_key_validator k) as Hk.
    destruct (key_validator k) as [l [k' | errs | e]]; auto.
    + apply contained_ap; [apply contained_ap |]; auto;
        try apply contained_pure; intros e; discriminate.
    + exfalso; exact (Hk e eq_refl).
Qed.

Lemma contained_dict_validator v : contained (dict_validator v).
Proof.
  destruct v; try (intros e; discriminate); simpl;
    try (destruct (dict_update _ _);
         [apply contained_validate_mapping | intros e; discriminate]).
  destruct s; [apply contained_validate_mapping | intros e; discriminate].
Qed.

Create HintDb contained.
#[export] Hint Resolve contained_pure contained_invalid contained_ap
  contained_fmap contained_at_loc contained_str_validator
  contained_int_validator contained_bool_validator contained_enum_validator
  contained_literal_validator contained_required contained_optional
  contained_defaulted contained_Model_validate contained_list_validator
  contained_dict_validator : contained.

Lemma contained_validate_Channel m : contained (validate_Channel m).
Proof. unfold validate_Channel; auto 20 with contained. Qed.

Lemma contained_validate_Guild m : contained (validate_Guild m).
Proof. unfold validate_Guild; auto 20 with contained. Qed.

Lemma contained_validate_User m : contained (validate_User m).
Proof. unfold validate_User; auto 20 with contained. Qed.

Lemma contained_validate_Role m : contained (validate_Role m).
Proof. unfold validate_Role; auto 20 with contained. Qed.

#[export] Hint Resolve contained_validate_Channel contained_validate_Guild
  contained_validate_User contained_validate_Role : contained.

Lemma contained_validate_Login m : contained (validate_Login m).
Proof. unfold validate_Login; auto 20 with contained. Qed.

Lemma contained_validate_Payload m : contained (validate_Payload m).
Proof. unfold validate_Payload; auto 20 with contained. Qed.

Lemma contained_validate_Identify m : contained (validate_Identify m).
Proof. unfold validate_Identify; auto 20 with contained. Qed.

#[export] Hint Resolve contained_validate_Login contained_validate_Payload
  contained_validate_Identify : contained.

Lemma contained_validate_Ready m : contained (validate_Ready m).
Proof. unfold validate_Ready; auto 20 with contained. Qed.

#[export] Hint Resolve contained_validate_Ready : contained.

Lemma contained_validate_IdentifyPayload m :
  contained (validate_IdentifyPayload m).
Proof. unfold validate_IdentifyPayload; auto 20 with contained. Qed.

Lemma contained_validate_ReadyPayload m : contained (validate_ReadyPayload m).
Proof. unfold validate_ReadyPayload; auto 20 with contained. Qed.

Lemma contained_validate_PingPayload m : contained (validate_PingPayload m).
Proof. unfold validate_PingPayload; auto 20 with contained. Qed.

Lemma contained_validate_PongPayload m : contained (validate_PongPayload m).
Proof. unfold validate_PongPayload; auto 20 with contained. Qed.

#[export] Hint Resolve contained_validate_IdentifyPayload
  contained_validate_ReadyPayload contained_validate_PingPayload
  contained_validate_PongPayload : contained.

Lemma Opcode_of_int_unknown z : z < 0 \/ 4 < z -> Opcode_of_int z = None.
Proof.
  intros H; destruct z as [| p | p]; try lia; try reflexivity.
  destruct p as [[p | p |] | [[p | p |] | [p | p |] |] |]; try reflexivity; lia.
Qed.

Lemma literal_validator_other o z :
  z <> Opcode_value o ->
  literal_validator o (PInt z) = invalid WrongConstantError.
Proof.
  intros H; unfold literal_validator; simpl.
  destruct (Z.eqb_spec z (Opcode_value o)); [contradiction | reflexivity].
Qed.

Lemma defaulted_literal_other o name m z :
  get name m = Some (PInt z) -> z <> Opcode_value o ->
  is_valid (defaulted o (literal_validator o) name m) = false.
Proof.
  intros Hget Hz; unfold defaulted; rewrite Hget.
  unfold validate_field; simpl.
  rewrite (literal_validator_other o z Hz); reflexivity.
Qed.

Lemma ap_invalid_l {A B : Type} (f : V (A -> B)) (a : V A) errs :
  outcome f = Invalid errs -> contained a ->
  exists errs', outcome (ap f a) = Invalid (errs ++ errs').
Proof.
  destruct f as [l1 [g | e1 | e]], a as [l2 [x | e2 | e']];
    simpl; intros H Ha; inversion H; subst.
  - exists []; rewrite app_nil_r; reflexivity.
  - exists e2; reflexivity.
  - exfalso; exact (Ha e' eq_refl).
Qed.

Lemma ap_contained_inv {A B : Type} (f : V (A -> B)) (a : V A) :
  contained f -> contained a ->
  (exists y, outcome (ap f a) = Valid y) \/
  (exists errs, outcome (ap f a) = Invalid errs).
Proof.
  intros Hf Ha. pose proof (contained_ap f a Hf Ha) as H.
  destruct (ap f a) as [l [y | errs | e]]; simpl in *.
  - left; eauto.
  - right; eauto.
  - exfalso; exact (H e eq_refl).
Qed.

Lemma contained_not_valid {A : Type} (v : V A) :
  contained v -> is_valid v = false -> exists errs, outcome v = Invalid errs.
Proof.
  unfold contained, is_valid; destruct v as [l [y | errs | e]]; simpl;
    intros H H'; try discriminate.
  - eauto.
  - exfalso; exact (H e eq_refl).
Qed.

Lemma contained_or_else {A : Type} (v w : V A) :
  contained v -> contained w -> contained (or_else v w).
Proof.
  unfold contained, outcome.
  destruct v as [l [x | errs | e]], w as [l' [x' | errs' | e']];
    simpl; intros Hv Hw e0 H; try discriminate;
    try exact (Hw _ eq_refl); exact (Hv _ eq_refl).
Qed.

Section Decoding.

Variable Element : Type.
Variable parse : string -> option (list Element).
Variable validate_Element : PyVal -> option Element.

Local Abbreviation decode := (validate_PayloadType Element parse validate_Element).
Local Abbreviation Event_of := (validate_Event Element parse validate_Element).
Local Abbreviation EventPayload_of :=
  (validate_EventPayload Element parse validate_Element).

(** C6: the content normalizer passes a list through unchanged, maps null
    to null, hands a string to the markup parser and returns exactly the
    sequence the parser built, and rejects a value of any other type with
    the error "content must be str". *)
Theorem C6_parse_content :
  (forall l, parse_content Element parse (PList l) = Return (Raw Element (PList l)))
  /\ parse_content Element parse PNone = Return (Raw Element PNone)
  /\ (forall s elements,
        parse s = Some elements ->
        parse_content Element parse (PStr s) = Return (Parsed Element elements))
  /\ (forall v,
        (forall l, v <> PList l) -> v <> PNone -> (forall s, v <> PStr s) ->
        parse_content Element parse v = Raise ValueError_content_must_be_str).
Proof.
  repeat split.
  - intros s elements H; simpl; rewrite H; reflexivity.
  - intros v Hl Hn Hs; destruct v; try reflexivity.
    + contradiction.
    + exfalso; exact (Hs s eq_refl).
    + exfalso; exact (Hl l eq_refl).
Qed.

Lemma EventPayload_op_other m z :
  get "op" m = Some (PInt z) -> z <> 0 -> is_valid (EventPayload_of m) = false.
Proof.
  intros Hget Hz; unfold validate_EventPayload.
  apply ap_not_valid_l, ap_not_valid_r.
  apply (defaulted_literal_other EVENT "op" m z); assumption.
Qed.

Lemma PingPayload_op_other m z :
  get "op" m = Some (PInt z) -> z <> 1 -> is_valid (validate_PingPayload m) = false.
Proof.
  intros Hget Hz; unfold validate_PingPayload.
  apply ap_not_valid_l, ap_not_valid_r.
  apply (defaulted_literal_other PING "op" m z); assumption.
Qed.

Lemma PongPayload_op_other m z :
  get "op" m = Some (PInt z) -> z <> 2 -> is_valid (validate_PongPayload m) = false.
Proof.
  intros Hget Hz; unfold validate_PongPayload.
  apply ap_not_valid_l, ap_not_valid_r.
  apply (defaulted_literal_other PONG "op" m z); assumption.
Qed.

Lemma IdentifyPayload_op_other m z :
  get "op" m = Some (PInt z) -> z <> 3 ->
  is_valid (validate_IdentifyPayload m) = false.
Proof.
  intros Hget Hz; unfold validate_IdentifyPayload.
  apply ap_not_valid_l, ap_not_valid_r.
  apply (defaulted_literal_other IDENTIFY "op" m z); assumption.
Qed.

Lemma ReadyPayload_op_other m z :
  get "op" m = Some (PInt z) -> z <> 4 -> is_valid (validate_ReadyPayload m) = false.
Proof.
  intros Hget Hz; unfold validate_ReadyPayload.
  apply ap_not_valid_l, ap_not_valid_r.
  apply (defaulted_literal_other READY "op" m z); assumption.
Qed.

Lemma Payload_op_unknown m z :
  get "op" m = Some (PInt z) -> z < 0 \/ 4 < z ->
  exists errs,
    outcome (validate_Payload m)
    = Invalid (mk_error [LKey "op"] EnumMemberError :: errs).
Proof.
  intros Hget Hz; unfold validate_Payload.
  destruct (ap_invalid_l
              (pure mk_Payload
                 <*> required (enum_validator Opcode_of_int) "op" m)
              (optional dict_validator "body" m)
              [mk_error [LKey "op"] EnumMemberError]) as [errs H].
  - unfold required, required_with; rewrite Hget.
    unfold validate_field, enum_validator; simpl.
    rewrite (Opcode_of_int_unknown z Hz); reflexivity.
  - auto with contained.
  - exists errs; exact H.
Qed.


Lemma pure_valid_inv {A : Type} (a : A) l x :
  pure a = (l, Valid x) -> l = [] /\ x = a.
Proof. intros H; inversion H; split; reflexivity. Qed.

(** Reads a successful chain of fields back into the success of each
    field. *)
Ltac ap_inv H :=
  repeat match type of H with
         | ap _ _ = (_, Valid _) =>
             let l1 := fresh "l" in
             let g := fresh "g" in
             let l2 := fresh "l" in
             let x := fresh "x" in
             let Hf := fresh "Hf" in
             let Ha := fresh "Ha" in
             apply ap_valid_inv in H;
             destruct H as (l1 & g & l2 & x & H & Ha & -> & ->);
             try (apply pure_valid_inv in Ha; destruct Ha as [-> ->])
         | pure _ = (_, Valid _) =>
             apply pure_valid_inv in H; destruct H as [-> ->]
         end.

Lemma required_PInt_int name m z l x :
  get name m = Some (PInt z) ->
  required int_validator name m = (l, Valid x) -> x = z.
Proof.
  intros Hget; unfold required, required_with; rewrite Hget; simpl.
  intros H; inversion H; reflexivity.
Qed.

Lemma required_PStr_str name m s l x :
  get name m = Some (PStr s) ->
  required str_validator name m = (l, Valid x) -> x = s.
Proof.
  intros Hget; unfold required, required_with; rewrite Hget; simpl.
  intros H; inversion H; reflexivity.
Qed.

Lemma get_extra_allow fields (m : RawMap) k :
  mem_str k fields = false -> get k (extra_allow fields m) = get k m.
Proof.
  intros Hk; induction m as [| [k' v] m IH]; simpl; [reflexivity |].
  destruct (String.eqb_spec k k') as [<- | Hne].
  - rewrite Hk; simpl; rewrite String.eqb_refl; reflexivity.
  - destruct (mem_str k' fields); simpl; [exact IH |].
    destruct (String.eqb_spec k k'); [contradiction | exact IH].
Qed.

Lemma required_timestamp_PInt pre name m t l x :
  get name m = Some (PInt t) ->
  (forall v, pre v = parse_joined_at v) ->
  required_with pre datetime_validator name m = (l, Valid x) ->
  fromtimestamp_ms t = Return x.
Proof.
  intros Hget Hpre; unfold required_with; rewrite Hget.
  unfold validate_field; rewrite Hpre; simpl.
  destruct (fromtimestamp_ms t) as [d | e]; simpl.
  - intros H; inversion H; reflexivity.
  - destruct (caught e); simpl; intros H; inversion H.
Qed.


Lemma bind_pure {A B : Type} (a : A) (k : A -> V B) : bind (pure a) k = k a.
Proof. unfold bind, pure; destruct (k a); reflexivity. Qed.

Lemma validate_field_no_pre {A : Type} (validate : PyVal -> V A) v :
  v <> PNone -> validate_field no_pre validate v = fmap Some (validate v).
Proof.
  intros Hv; unfold validate_field, no_pre, apply_validator.
  rewrite bind_pure; destruct v; try reflexivity; contradiction.
Qed.

Lemma Model_validate_not_dict {A : Type} (validate : RawMap -> V A) v :
  py_dict v = None -> Model_validate validate v = invalid DictError.
Proof.
  intros H; unfold Model_validate; destruct v; try discriminate;
    rewrite H; reflexivity.
Qed.

Lemma dict_validator_not_dict v :
  py_dict v = None -> dict_validator v = invalid DictError.
Proof.
  intros H; unfold dict_validator; destruct v; try discriminate;
    rewrite H; reflexivity.
Qed.

Lemma EventPayload_other_body m z d :
  get "op" m = Some (PInt z) -> z <> 0 ->
  get "body" m = Some (PDict d) ->
  contained (Event_of d) ->
  exists errs, EventPayload_of m = (logs (Event_of d), Invalid errs).
Proof.
  intros Hop Hz Hbody Hc.
  unfold validate_EventPayload, defaulted, required, required_with.
  rewrite Hop, Hbody.
  rewrite !validate_field_no_pre by discriminate.
  rewrite (literal_validator_other EVENT z Hz).
  unfold Model_validate.
  destruct (Event_of d) as [l [ev | errs | e]]; simpl.
  - rewrite app_nil_r; eauto.
  - eauto.
  - exfalso; exact (Hc e eq_refl).
Qed.

(** C5 (as the code has it): with [op] 1 or 2 the body is validated as
    an optional mapping and kept.  Without a body, or with a null body,
    the decode returns the ping or pong payload with no body; with a
    mapping it returns the payload holding that mapping (unless reading
    the mapping as an event lets an exception escape); with a value that
    is no mapping the decode fails. *)
Theorem C5_ping_pong (m : RawMap) (o : Opcode) :
  o = PING \/ o = PONG ->
  get "op" m = Some (PInt (Opcode_value o)) ->
  ((get "body" m = None \/ get "body" m = Some PNone) ->
   decode (PDict m) = ([], Valid (ping_or_pong Element o None)))
  /\ (forall d,
        get "body" m = Some (PDict d) -> contained (Event_of d) ->
        decode (PDict m)
        = (logs (Event_of d), Valid (ping_or_pong Element o (Some d))))
  /\ (forall v,
        get "body" m = Some v -> v <> PNone -> py_dict v = None ->
        exists errs, decode (PDict m) = ([], Invalid errs)).
Proof.
  intros Ho Hop; repeat split.
  - intros Hbody.
    unfold validate_PayloadType, Model_validate, validate_EventPayload,
      validate_PingPayload, validate_PongPayload, validate_IdentifyPayload,
      validate_ReadyPayload, validate_Payload, defaulted, required, optional,
      required_with, optional_with.
    rewrite Hop.
    destruct Ho as [-> | ->], Hbody as [-> | ->]; reflexivity.
  - intros d Hbody Hc.
    assert (Hz : Opcode_value o <> 0) by (destruct Ho as [-> | ->]; discriminate).
    destruct (EventPayload_other_body m _ d Hop Hz Hbody Hc) as [errs He].
    unfold validate_PayloadType, Model_validate. rewrite He.
    unfold validate_PingPayload, validate_PongPayload, defaulted, optional,
      optional_with.
    rewrite Hop, Hbody.
    destruct Ho as [-> | ->]; simpl; rewrite app_nil_r; reflexivity.
  - intros v Hbody Hv Hd.
    unfold validate_PayloadType, Model_validate, validate_EventPayload,
      validate_PingPayload, validate_PongPayload, validate_IdentifyPayload,
      validate_ReadyPayload, validate_Payload, defaulted, required, optional,
      required_with, optional_with.
    rewrite Hop, Hbody.
    rewrite !(validate_field_no_pre _ v Hv).
    rewrite !(Model_validate_not_dict _ v Hd), (dict_validator_not_dict v Hd).
    destruct Ho as [-> | ->]; eexists; reflexivity.
Qed.

(** ** Open schema (C7) *)

Lemma get_declared fields (m : RawMap) k :
  mem_str k fields = true -> get k (declared fields m) = get k m.
Proof.
  intros Hk; induction m as [| [k' v] m IH]; simpl; [reflexivity |].
  destruct (String.eqb_spec k k') as [<- | Hne].
  - rewrite Hk; simpl; rewrite String.eqb_refl; reflexivity.
  - destruct (mem_str k' fields); simpl; [| exact IH].
    destruct (String.eqb_spec k k'); [contradiction | exact IH].
Qed.

Lemma get_set_key {A : Type} k c (v : A) m :
  get k (set_key c v m) = if String.eqb k c then Some v else get k m.
Proof.
  induction m as [| [k' v'] m IH]; simpl.
  - destruct (String.eqb k c); reflexivity.
  - destruct (String.eqb_spec c k') as [<- | Hne]; simpl.
    + destruct (String.eqb k c); reflexivity.
    + rewrite IH. destruct (String.eqb_spec k c) as [-> | Hkc].
      * destruct (String.eqb_spec c k'); [contradiction | reflexivity].
      * reflexivity.
Qed.

Lemma extra_allow_set_key fields c v (m : RawMap) :
  mem_str c fields = true ->
  extra_allow fields (set_key c v m) = extra_allow fields m.
Proof.
  intros Hc; induction m as [| [k' v'] m IH]; simpl.
  - rewrite Hc; reflexivity.
  - destruct (String.eqb_spec c k') as [<- | Hne]; simpl.
    + rewrite Hc; reflexivity.
    + rewrite IH; reflexivity.
Qed.

Lemma required_with_ext {A : Type} pre (validate : PyVal -> V A) name
  (m m' : RawMap) :
  get name m = get name m' ->
  required_with pre validate name m = required_with pre validate name m'.
Proof. intros H; unfold required_with; rewrite H; reflexivity. Qed.

Lemma optional_with_ext {A : Type} pre (validate : PyVal -> V A) name
  (m m' : RawMap) :
  get name m = get name m' ->
  optional_with pre validate name m = optional_with pre validate name m'.
Proof. intros H; unfold optional_with; rewrite H; reflexivity. Qed.

Lemma content_field_ext (m m' : RawMap) :
  get "content" m = get "content" m' ->
  content_field Element parse validate_Element m
  = content_field Element parse validate_Element m'.
Proof. intros H; unfold content_field; rewrite H; reflexivity. Qed.

(** Moves what is known of the fields of one raw map to another map with
    the same declared part, and closes the goal by running the chain. *)
Ltac same_fields Hget :=
  unfold required, optional in *;
  repeat match goal with
         | H : required_with ?p ?v ?n ?a = _ |- _ =>
             rewrite (required_with_ext p v n a _ (Hget n eq_refl)) in H;
             rewrite H; clear H
         | H : optional_with ?p ?v ?n ?a = _ |- _ =>
             rewrite (optional_with_ext p v n a _ (Hget n eq_refl)) in H;
             rewrite H; clear H
         | H : content_field _ _ _ ?a = _ |- _ =>
             rewrite (content_field_ext a _ (Hget "content" eq_refl)) in H;
             rewrite H; clear H
         end.

Lemma open_schema_Channel :
  open_schema Channel_fields validate_Channel Channel_extra Channel_with_extra.
Proof.
  intros m l x; split; unfold validate_Channel; intros H; ap_inv H.
  - same_fields (fun n => get_declared Channel_fields m n). reflexivity.
  - intros k Hk; apply get_extra_allow, Hk.
Qed.

Lemma open_schema_Guild :
  open_schema Guild_fields validate_Guild Guild_extra Guild_with_extra.
Proof.
  intros m l x; split; unfold validate_Guild; intros H; ap_inv H.
  - same_fields (fun n => get_declared Guild_fields m n). reflexivity.
  - intros k Hk; apply get_extra_allow, Hk.
Qed.

Lemma open_schema_User :
  open_schema User_fields validate_User User_extra User_with_extra.
Proof.
  intros m l x; split; unfold validate_User; intros H; ap_inv H.
  - same_fields (fun n => get_declared User_fields m n). reflexivity.
  - intros k Hk; apply get_extra_allow, Hk.
Qed.

Lemma open_schema_Role :
  open_schema Role_fields validate_Role Role_extra Role_with_extra.
Proof.
  intros m l x; split; unfold validate_Role; intros H; ap_inv H.
  - same_fields (fun n => get_declared Role_fields m n). reflexivity.
  - intros k Hk; apply get_extra_allow, Hk.
Qed.

Lemma open_schema_Login :
  open_schema Login_fields validate_Login Login_extra Login_with_extra.
Proof.
  intros m l x; split; unfold validate_Login; intros H; ap_inv H.
  - same_fields (fun n => get_declared Login_fields m n). reflexivity.
  - intros k Hk; apply get_extra_allow, Hk.
Qed.

Lemma open_schema_InnerMember :
  open_schema Member_fields validate_InnerMember InnerMember_extra
    InnerMember_with_extra.
Proof.
  intros m l x; split; unfold validate_InnerMember; intros H; ap_inv H.
  - same_fields (fun n => get_declared Member_fields m n). reflexivity.
  - intros k Hk; apply get_extra_allow, Hk.
Qed.

Lemma open_schema_OuterMember :
  open_schema Member_fields validate_OuterMember OuterMember_extra
    OuterMember_with_extra.
Proof.
  intros m l x; split; unfold validate_OuterMember; intros H; ap_inv H.
  - same_fields (fun n => get_declared Member_fields m n). reflexivity.
  - intros k Hk; apply get_extra_allow, Hk.
Qed.

Lemma open_schema_Event :
  open_schema Event_fields Event_of (Event_extra Element)
    (Event_with_extra Element).
Proof.
  intros m l x; split; unfold validate_Event; intros H; ap_inv H.
  - same_fields (fun n => get_declared Event_fields m n). reflexivity.
  - intros k Hk; apply get_extra_allow, Hk.
Qed.

Lemma has_key_declared fields (m : RawMap) k :
  mem_str k fields = true -> has_key k (declared fields m) = has_key k m.
Proof. intros Hk; unfold has_key; rewrite get_declared by exact Hk; reflexivity. Qed.

Lemma get_set_key_declared fields c v (m : RawMap) k :
  mem_str k fields = true ->
  get k (set_key c v (declared fields m)) = get k (set_key c v m).
Proof.
  intros Hk; rewrite !get_set_key, get_declared by exact Hk; reflexivity.
Qed.

Lemma extra_allow_declared fields (m : RawMap) :
  extra_allow fields (declared fields m) = [].
Proof.
  induction m as [| [k v] m IH]; simpl; [reflexivity |].
  destruct (mem_str k fields) eqn:Hk; simpl; [rewrite Hk |]; exact IH.
Qed.

Lemma bind_valid_inv {A B : Type} (v : V A) (k : A -> V B) l y :
  bind v k = (l, Valid y) ->
  exists l1 a l2, v = (l1, Valid a) /\ k a = (l2, Valid y) /\ l = l1 ++ l2.
Proof.
  destruct v as [l1 [a | errs | e]]; simpl; intros H; try discriminate.
  destruct (k a) as [l2 o] eqn:Hk; inversion H; subst.
  exists l1, a, l2; repeat split; [exact Hk].
Qed.

Lemma ensure_content_cases (m : RawMap) :
  (has_key "content" m = true /\ ensure_content m = ([], Valid m))
  \/ (has_key "content" m = false
      /\ ensure_content m
         = ([mk_log "WARNING"
               "received message without content, this may be caused by a bug of Satori Server."],
            Valid (set_key "content" (PStr "Unknown") m))).
Proof.
  unfold ensure_content; destruct (has_key "content" m); [left | right];
    split; reflexivity.
Qed.

Lemma open_schema_InnerMessage :
  open_schema Message_fields
    (validate_InnerMessage Element parse validate_Element)
    (InnerMessage_extra Element) (InnerMessage_with_extra Element).
Proof.
  intros m l x; split; unfold validate_InnerMessage; intros H;
    apply bind_valid_inv in H; destruct H as (l1 & values & l2 & He & H & ->);
    ap_inv H.
  - destruct (ensure_content_cases (declared Message_fields m))
      as [[Hk Hd] | [Hk Hd]];
      rewrite Hd in He; inversion He; subst; clear He;
      rewrite has_key_declared in Hk by reflexivity;
      destruct (ensure_content_cases m) as [[Hk' Hm] | [Hk' Hm]];
      try congruence; rewrite Hm; cbn [bind].
    + same_fields (fun n => get_declared Message_fields m n). reflexivity.
    + same_fields
        (fun n => get_set_key_declared Message_fields "content"
                    (PStr "Unknown") m n).
      rewrite !extra_allow_set_key by reflexivity. reflexivity.
  - intros k Hk. cbn [InnerMessage_extra].
    destruct (ensure_content_cases m) as [[Hk' Hm] | [Hk' Hm]];
      rewrite Hm in He; inversion He; subst.
    + apply get_extra_allow, Hk.
    + rewrite extra_allow_set_key by reflexivity. apply get_extra_allow, Hk.
Qed.

Lemma open_schema_OuterMessage :
  open_schema Message_fields
    (validate_OuterMessage Element parse validate_Element)
    (OuterMessage_extra Element) (OuterMessage_with_extra Element).
Proof.
  intros m l x; split; unfold validate_OuterMessage; intros H;
    apply bind_valid_inv in H; destruct H as (l1 & values & l2 & He & H & ->);
    ap_inv H.
  - destruct (ensure_content_cases (declared Message_fields m))
      as [[Hk Hd] | [Hk Hd]];
      rewrite Hd in He; inversion He; subst; clear He;
      rewrite has_key_declared in Hk by reflexivity;
      destruct (ensure_content_cases m) as [[Hk' Hm] | [Hk' Hm]];
      try congruence; rewrite Hm; cbn [bind].
    + same_fields (fun n => get_declared Message_fields m n). reflexivity.
    + same_fields
        (fun n => get_set_key_declared Message_fields "content"
                    (PStr "Unknown") m n).
      rewrite !extra_allow_set_key by reflexivity. reflexivity.
  - intros k Hk. cbn [OuterMessage_extra].
    destruct (ensure_content_cases m) as [[Hk' Hm] | [Hk' Hm]];
      rewrite Hm in He; inversion He; subst.
    + apply get_extra_allow, Hk.
    + rewrite extra_allow_set_key by reflexivity. apply get_extra_allow, Hk.
Qed.


(** ** Outer tier within inner tier (C8) *)

Lemma at_loc_valid_inv {A : Type} (i : LocItem) (v : V A) l x :
  at_loc i v = (l, Valid x) -> v = (l, Valid x).
Proof. destruct v as [l' [y | errs | e]]; simpl; intros H; inversion H; reflexivity. Qed.

Lemma not_none_valid_inv {A : Type} (v : V (option A)) l x :
  not_none v = (l, Valid x) -> v = (l, Valid (Some x)).
Proof.
  destruct v as [l' [[y |] | errs | e]]; simpl; intros H; inversion H.
  rewrite app_nil_r; reflexivity.
Qed.

Lemma required_as_optional {A : Type} pre (validate : PyVal -> V A) name m l x :
  required_with pre validate name m = (l, Valid x) ->
  optional_with pre validate name m = (l, Valid (Some x)).
Proof.
  unfold required_with, optional_with; destruct (get name m) as [v |].
  - intros H. apply at_loc_valid_inv, not_none_valid_inv in H.
    rewrite H; reflexivity.
  - simpl; intros H; inversion H.
Qed.

(** Reads required fields as the optional fields of the inner tier. *)
Ltac as_optional :=
  unfold required, optional in *;
  repeat match goal with
         | H : required_with ?p ?v ?n ?a = _
           |- context [optional_with ?p ?v ?n ?a] =>
             rewrite (required_as_optional p v n a _ _ H); clear H
         | H : required_with ?p ?v ?n ?a = _
           |- context [required_with ?p ?v ?n ?a] => rewrite H; clear H
         | H : optional_with ?p ?v ?n ?a = _ |- _ => rewrite H; clear H
         | H : content_field _ _ _ _ = _ |- _ => rewrite H; clear H
         end.

(** C8: a raw map that validates as [OuterMember] validates as
    [InnerMember], with the same logs and the same field values (the two
    required ones now present); likewise for the message tiers.  The
    converse fails: the empty map is an [InnerMember] and no
    [OuterMember]. *)
Theorem C8_outer_is_inner :
  (forall m l x,
      validate_OuterMember m = (l, Valid x) ->
      validate_InnerMember m = (l, Valid (OuterMember_as_inner x)))
  /\ (forall m l x,
        validate_OuterMessage Element parse validate_Element m = (l, Valid x) ->
        validate_InnerMessage Element parse validate_Element m
        = (l, Valid (OuterMessage_as_inner Element x)))
  /\ (exists m,
        is_valid (validate_InnerMember m) = true
        /\ is_valid (validate_OuterMember m) = false).
Proof.
  repeat split.
  - intros m l x H. unfold validate_OuterMember in H. ap_inv H.
    unfold validate_InnerMember. as_optional. reflexivity.
  - intros m l x H. unfold validate_OuterMessage in H.
    apply bind_valid_inv in H; destruct H as (l1 & values & l2 & He & H & ->).
    ap_inv H.
    unfold validate_InnerMessage. rewrite He; cbn [bind].
    as_optional. reflexivity.
  - exists []; split; reflexivity.
Qed.

(** ** The missing [content] (C2, C10) *)

Lemma reports_ap_l {A B : Type} (f : V (A -> B)) (a : V A) e :
  reports e f -> reports e (ap f a).
Proof.
  unfold reports, is_valid, outcome.
  destruct f as [l1 [g | e1 | ex]], a as [l2 [x | e2 | ex']];
    simpl; intros [Hv Hin]; try discriminate; split; try reflexivity;
    intros errs H; inversion H; subst; try apply in_or_app; auto.
Qed.

Lemma reports_ap_r {A B : Type} (f : V (A -> B)) (a : V A) e :
  reports e a -> reports e (ap f a).
Proof.
  unfold reports, is_valid, outcome.
  destruct f as [l1 [g | e1 | ex]], a as [l2 [x | e2 | ex']];
    simpl; intros [Hv Hin]; try discriminate; split; try reflexivity;
    intros errs H; inversion H; subst; try apply in_or_app; auto.
Qed.

Lemma logs_bind_valid {A B : Type} (v : V A) (k : A -> V B) l a :
  v = (l, Valid a) -> silent (k a) -> logs (bind v k) = l.
Proof.
  intros -> Hk; unfold silent, logs in *; simpl.
  destruct (k a) as [l' o]; simpl in *; subst; apply app_nil_r.
Qed.

Lemma silent_content_field values :
  silent (content_field Element parse validate_Element values).
Proof.
  unfold content_field; destruct (get "content" values); [| reflexivity].
  apply silent_at_loc, silent_bind; [apply silent_apply_validator |].
  intros [w | elements]; [| reflexivity].
  destruct w; try reflexivity; try apply silent_list_validator;
    intros w; unfold Element_validator; destruct (validate_Element w);
    reflexivity.
Qed.

Lemma logs_validate_InnerMessage m :
  logs (validate_InnerMessage Element parse validate_Element m)
  = if has_key "content" m then [] else [no_content_warning].
Proof.
  unfold validate_InnerMessage.
  destruct (ensure_content_cases m) as [[Hk He] | [Hk He]]; rewrite Hk;
    (eapply logs_bind_valid; [exact He |]);
    unfold required, optional;
    auto 20 using silent_content_field with silent.
Qed.

Lemma silent_validate_InnerMessage_with m :
  has_key "content" m = true ->
  silent (validate_InnerMessage Element parse validate_Element m).
Proof.
  intros H; unfold silent; rewrite logs_validate_InnerMessage, H; reflexivity.
Qed.

Lemma get_None_has_key {A : Type} k (m : list (string * A)) :
  has_key k m = false <-> get k m = None.
Proof. unfold has_key; destruct (get k m); split; congruence. Qed.

(** The sentinel path: a map without [content] goes through
    [ensure_content] and [parse_content] to the parser's reading of
    "Unknown"; every other field is read as it would be beside any valid
    content. *)
Lemma sentinel_decode m elements l x :
  has_key "content" m = false ->
  parse "Unknown" = Some elements ->
  validate_InnerMessage Element parse validate_Element
    (set_key "content" (PList []) m) = (l, Valid x) ->
  validate_InnerMessage Element parse validate_Element m
  = (no_content_warning :: l,
     Valid (InnerMessage_with_content Element x elements)).
Proof.
  intros Hk Hp H. unfold validate_InnerMessage in *.
  destruct (ensure_content_cases m) as [[Hk' He] | [Hk' He]];
    [congruence |]; rewrite He; clear He.
  destruct (ensure_content_cases (set_key "content" (PList []) m))
    as [[Hk1 He] | [Hk1 He]].
  2:{ unfold has_key in Hk1; rewrite get_set_key in Hk1; discriminate. }
  apply bind_valid_inv in H; destruct H as (l1 & values & l2 & He' & H & ->).
  rewrite He in He'; inversion He'; subst; clear He He'.
  ap_inv H. cbn [bind app].
  match goal with
  | Hf : content_field _ _ _ _ = _ |- _ =>
      unfold content_field in Hf; rewrite get_set_key in Hf; simpl in Hf;
      inversion Hf; subst; clear Hf
  end.
  assert (Hget : forall n, String.eqb n "content" = false ->
                           get n (set_key "content" (PList []) m)
                           = get n (set_key "content" (PStr "Unknown") m))
    by (intros n Hn; rewrite !get_set_key, Hn; reflexivity).
  assert (Hc : content_field Element parse validate_Element
                 (set_key "content" (PStr "Unknown") m) = ([], Valid elements)).
  { unfold content_field; rewrite get_set_key; simpl; rewrite Hp; reflexivity. }
  same_fields Hget. rewrite Hc.
  rewrite !extra_allow_set_key by reflexivity.
  reflexivity.
Qed.

Lemma silent_valid {A : Type} (v : V A) l x :
  silent v -> v = (l, Valid x) -> l = [].
Proof. intros H ->; exact H. Qed.

Lemma is_valid_bind_valid {A B : Type} (v : V A) (k : A -> V B) l a :
  v = (l, Valid a) -> is_valid (bind v k) = is_valid (k a).
Proof. intros ->; unfold is_valid; simpl; destruct (k a); reflexivity. Qed.

Lemma optional_Model_PDict {A : Type} (validate : RawMap -> V A) name b d l x :
  get name b = Some (PDict d) ->
  optional (Model_validate validate) name b = (l, Valid x) ->
  exists y, x = Some y /\ validate d = (l, Valid y).
Proof.
  intros Hget; unfold optional, optional_with; rewrite Hget.
  rewrite validate_field_no_pre by discriminate.
  unfold Model_validate.
  destruct (validate d) as [l' [y | errs | e]]; simpl; intros H; inversion H.
  exists y; split; reflexivity.
Qed.

(** Drops the logs of the fields that cannot log. *)
Ltac drop_silent_logs :=
  repeat match goal with
         | H : ?v = (?l, Valid _) |- _ =>
             is_var l;
             let E := fresh in
             assert (E : l = [])
               by (apply (silent_valid v _ _ ltac:(unfold required, optional;
                                                   auto 20 with silent) H));
             subst l
         end.

(** A required field that is absent fails its model. *)
Ltac absent_field :=
  unfold required, optional, required_with;
  repeat match goal with
         | H : get _ _ = None |- _ => rewrite H
         end;
  repeat first [ apply ap_not_valid_r; reflexivity | apply ap_not_valid_l ].

Lemma rejects_missing_message {A : Type}
  (fields : RawMap -> V A) (name : string) :
  String.eqb name "content" = false ->
  (forall values, get name values = None -> is_valid (fields values) = false) ->
  rejects_missing (fun m => values <- ensure_content m ;; fields values) name.
Proof.
  intros Hn Hf m Hget.
  destruct (ensure_content_cases m) as [[_ He] | [_ He]];
    rewrite (is_valid_bind_valid _ _ _ _ He); apply Hf; [exact Hget |].
  rewrite get_set_key, Hn; exact Hget.
Qed.


Lemma get_remove_key {A : Type} k c (m : list (string * A)) :
  get k (remove_key c m) = if String.eqb k c then None else get k m.
Proof.
  induction m as [| [k' v'] m IH]; simpl.
  - destruct (String.eqb k c); reflexivity.
  - destruct (String.eqb_spec c k') as [<- | Hne]; simpl.
    + rewrite IH. destruct (String.eqb k c); reflexivity.
    + rewrite IH. destruct (String.eqb_spec k c) as [-> | Hkc].
      * destruct (String.eqb_spec c k'); [contradiction | reflexivity].
      * reflexivity.
Qed.

Lemma extra_allow_remove_key fields c (m : RawMap) :
  mem_str c fields = true ->
  extra_allow fields (remove_key c m) = extra_allow fields m.
Proof.
  intros Hc; induction m as [| [k' v'] m IH]; simpl; [reflexivity |].
  destruct (String.eqb_spec c k') as [<- | Hne]; simpl.
  - rewrite Hc; exact IH.
  - rewrite IH; reflexivity.
Qed.

(** A message is read through the lookups of its raw map and its unknown
    keys only. *)
Lemma validate_InnerMessage_ext (m m' : RawMap) :
  (forall n, get n m = get n m') ->
  extra_allow Message_fields m = extra_allow Message_fields m' ->
  validate_InnerMessage Element parse validate_Element m
  = validate_InnerMessage Element parse validate_Element m'.
Proof.
  intros Hget Hextra. unfold validate_InnerMessage.
  assert (Hk : has_key "content" m = has_key "content" m')
    by (unfold has_key; rewrite Hget; reflexivity).
  destruct (ensure_content_cases m) as [[Hk1 He] | [Hk1 He]];
    destruct (ensure_content_cases m') as [[Hk2 He'] | [Hk2 He']];
    try congruence; rewrite He, He'; cbn [bind];
    unfold required, optional.
  - rewrite (content_field_ext m m' (Hget _)).
    repeat match goal with
           | |- context [required_with ?p ?v ?n m] =>
               rewrite (required_with_ext p v n m m' (Hget n))
           | |- context [optional_with ?p ?v ?n m] =>
               rewrite (optional_with_ext p v n m m' (Hget n))
           end.
    rewrite Hextra; reflexivity.
  - assert (Hget' : forall n,
               get n (set_key "content" (PStr "Unknown") m)
               = get n (set_key "content" (PStr "Unknown") m'))
      by (intros n; rewrite !get_set_key, Hget; reflexivity).
    rewrite (content_field_ext _ _ (Hget' _)).
    repeat match goal with
           | |- context [required_with ?p ?v ?n
                           (set_key "content" (PStr "Unknown") m)] =>
               rewrite (required_with_ext p v n _ _ (Hget' n))
           | |- context [optional_with ?p ?v ?n
                           (set_key "content" (PStr "Unknown") m)] =>
               rewrite (optional_with_ext p v n _ _ (Hget' n))
           end.
    rewrite !extra_allow_set_key by reflexivity.
    rewrite Hextra; reflexivity.
Qed.

Lemma reports_bind_valid {A B : Type} (v : V A) (k : A -> V B) l a e :
  v = (l, Valid a) -> reports e (k a) -> reports e (bind v k).
Proof.
  intros -> [Hv Hin]; unfold reports, is_valid, outcome in *; simpl.
  destruct (k a) as [l' o]; simpl in *; split; assumption.
Qed.


End Decoding.

(** ** Binary64 rounding of epoch milliseconds (C3, C9) *)

Lemma round_half_even_near n d :
  0 < d -> 2 * Z.abs (d * round_half_even n d - n) <= d.
Proof.
  intros Hd; unfold round_half_even.
  pose proof (Z.div_mod n d ltac:(lia)) as Hdm.
  pose proof (Z.mod_pos_bound n d Hd) as Hr.
  destruct (Z.ltb_spec (2 * (n mod d)) d); [lia |].
  destruct (Z.ltb_spec d (2 * (n mod d))); [lia |].
  destruct (Z.even (n / d)); lia.
Qed.

Lemma round_half_even_unique n d k :
  0 < d -> 2 * Z.abs (d * k - n) < d -> round_half_even n d = k.
Proof.
  intros Hd Hk. pose proof (round_half_even_near n d Hd) as Hq.
  nia.
Qed.

Lemma round_half_even_nonneg n d : 0 < d -> 0 <= n -> 0 <= round_half_even n d.
Proof.
  intros Hd Hn. pose proof (round_half_even_near n d Hd) as Hq. nia.
Qed.

Lemma round_half_even_opp n d :
  0 < d -> round_half_even (- n) d = - round_half_even n d.
Proof.
  intros Hd; unfold round_half_even.
  pose proof (Z.div_mod n d ltac:(lia)) as Hdm.
  pose proof (Z.mod_pos_bound n d Hd) as Hr.
  pose proof (Z.div_mod (- n) d ltac:(lia)) as Hdm'.
  pose proof (Z.mod_pos_bound (- n) d Hd) as Hr'.
  assert (Hcase : (n mod d = 0 /\ (- n) mod d = 0 /\ (- n) / d = - (n / d))
                  \/ (0 < n mod d /\ (- n) mod d = d - n mod d
                      /\ (- n) / d = - (n / d) - 1)).
  { destruct (Z.eq_dec (n mod d) 0) as [E | E].
    - left. split; [exact E |].
      split; [symmetry; apply (Z.mod_unique (- n) d (- (n / d)) 0); lia
             | symmetry; apply (Z.div_unique (- n) d (- (n / d)) 0); lia].
    - right. split; [lia |].
      split; [symmetry; apply (Z.mod_unique (- n) d (- (n / d) - 1)); lia
             | symmetry;
               apply (Z.div_unique (- n) d (- (n / d) - 1) (d - n mod d)); lia]. }
  destruct Hcase as [(H0 & H0' & Hq) | (H0 & H0' & Hq)]; rewrite H0', Hq.
  - rewrite H0.
    destruct (Z.ltb_spec (2 * 0) d); lia.
  - destruct (Z.ltb_spec (2 * (n mod d)) d);
      destruct (Z.ltb_spec (2 * (d - n mod d)) d); try lia;
      destruct (Z.ltb_spec d (2 * (n mod d)));
      destruct (Z.ltb_spec d (2 * (d - n mod d))); try lia.
    replace (- (n / d) - 1) with (- (n / d + 1)) by lia.
    rewrite Z.even_opp, Z.even_add. simpl.
    destruct (Z.even (n / d)); simpl; lia.
Qed.

Lemma ilog2_ratio_lower n d :
  0 < n -> 0 < d -> 0 <= ilog2_ratio n d -> d * 2 ^ ilog2_ratio n d <= n.
Proof.
  intros Hn Hd; unfold ilog2_ratio.
  set (k := Z.log2 n - Z.log2 d).
  destruct (Z.leb_spec 0 k) as [Hk | Hk].
  - destruct (Z.leb_spec (d * 2 ^ k) n) as [Hle | Hgt]; [intros _; exact Hle |].
    intros Hk1.
    pose proof (Z.log2_spec n Hn) as [Hn1 _].
    pose proof (Z.log2_spec d Hd) as [_ Hd2].
    pose proof (Z.log2_nonneg d) as Hld.
    assert (E : 2 ^ Z.log2 n = 2 ^ (Z.succ (Z.log2 d)) * 2 ^ (k - 1)).
    { rewrite <- Z.pow_add_r by lia. f_equal; unfold k; lia. }
    assert (0 < 2 ^ (k - 1)) by (apply Z.pow_pos_nonneg; lia).
    nia.
  - destruct (d <=? n * 2 ^ (- k)); intros; lia.
Qed.

Lemma ilog2_ratio_below n d j :
  0 < n -> 0 < d -> 0 <= j -> n < d * 2 ^ j -> ilog2_ratio n d < j.
Proof.
  intros Hn Hd Hj Hlt.
  destruct (Z.lt_ge_cases (ilog2_ratio n d) j) as [H | H]; [exact H |].
  pose proof (ilog2_ratio_lower n d Hn Hd ltac:(lia)) as Hlow.
  pose proof (Z.pow_le_mono_r 2 j (ilog2_ratio n d) ltac:(lia) H).
  nia.
Qed.

Lemma micros_shape t :
  0 < t < 1000 * 2 ^ 38 ->
  exists A B R m',
    2 ^ 15 <= A /\ (t < 1000 * 2 ^ 33 -> 2 ^ 20 <= A) /\ 2 ^ 33 <= B
    /\ 0 <= R /\ Z.abs (1000 * R - (t mod 1000) * A) <= 500
    /\ 0 <= m' /\ 2 * Z.abs (A * m' - 1000000 * R * B) <= A
    /\ micros_of_float (rne53 t 1000)
       = (t / 1000) * 1000000 + round_half_even m' B.
Proof.
  intros [Ht0 Ht]. unfold rne53.
  destruct (Z.eqb_spec t 0) as [-> | _]; [lia |].
  set (k := ilog2_ratio t 1000).
  assert (Hk : k < 38) by (apply ilog2_ratio_below; lia).
  destruct (Z.leb_spec 0 (k - 52)) as [Hbad | He]; [lia |].
  replace (- (k - 52)) with (52 - k) by lia.
  set (A := 2 ^ (52 - k)).
  assert (HA : 2 ^ 15 <= A) by (apply Z.pow_le_mono_r; lia).
  assert (HA' : t < 1000 * 2 ^ 33 -> 2 ^ 20 <= A).
  { intros Ht'. apply Z.pow_le_mono_r; [lia |].
    assert (k < 33) by (apply ilog2_ratio_below; lia). lia. }
  set (m := round_half_even (t * A) 1000).
  pose proof (round_half_even_near (t * A) 1000 ltac:(lia)) as Hm. fold m in Hm.
  pose proof (Z.div_mod t 1000 ltac:(lia)) as Hdm.
  pose proof (Z.mod_pos_bound t 1000 ltac:(lia)) as Hr0.
  set (q0 := t / 1000) in *. set (r0 := t mod 1000) in *.
  assert (HAv : A = 2 ^ 15 * (A / 2 ^ 15) \/ True) by (right; exact I).
  assert (Hdiv : m / A = q0 /\ m mod A = m - A * q0).
  { assert (H0 : 0 <= m - A * q0 < A) by nia.
    split; [symmetry; apply (Z.div_unique m A q0 (m - A * q0)); lia
           | symmetry; apply (Z.mod_unique m A q0 (m - A * q0)); lia]. }
  destruct Hdiv as [Hq HR].
  assert (Hm0 : 0 <= m) by (apply round_half_even_nonneg; nia).
  set (R := m mod A) in *.
  assert (HR0 : 0 <= R < A) by (apply Z.mod_pos_bound; lia).
  assert (HRr : Z.abs (1000 * R - r0 * A) <= 500) by nia.
  unfold micros_of_float, trunc, frac; cbn [fm fe].
  destruct (Z.leb_spec 0 (k - 52)) as [Hbad | _]; [lia |].
  replace (- (k - 52)) with (52 - k) by lia. fold A.
  rewrite Z.quot_div_nonneg, Z.rem_mod_nonneg by lia.
  fold m. rewrite Hq. fold R.
  unfold mul_1e6; cbn [fm fe].
  destruct (Z.leb_spec 0 (k - 52)) as [Hbad | _]; [lia |].
  replace (- (k - 52)) with (52 - k) by lia. fold A.
  destruct (Z.ltb_spec R 0) as [Hbad | _]; [lia |].
  rewrite (Z.abs_eq R) by lia.
  unfold rne53.
  destruct (Z.eqb_spec (R * 1000000) 0) as [HR00 | HRpos].
  - exists A, (2 ^ 33), R, 0. cbn [round_float fm fe].
    assert (R = 0) by lia. subst R.
    repeat split; lia.
  - set (k' := ilog2_ratio (R * 1000000) A).
    assert (Hk' : k' < 20) by (apply ilog2_ratio_below; lia).
    destruct (Z.leb_spec 0 (k' - 52)) as [Hbad | He']; [lia |].
    replace (- (k' - 52)) with (52 - k') by lia.
    set (B := 2 ^ (52 - k')).
    assert (HB : 2 ^ 33 <= B) by (apply Z.pow_le_mono_r; lia).
    set (m' := round_half_even (R * 1000000 * B) A).
    pose proof (round_half_even_near (R * 1000000 * B) A ltac:(lia)) as Hm'.
    fold m' in Hm'.
    exists A, B, R, m'. unfold round_float; cbn [fm fe].
    destruct (Z.leb_spec 0 (k' - 52)) as [Hbad | _]; [lia |].
    replace (- (k' - 52)) with (52 - k') by lia. fold B.
    assert (0 <= m') by (apply round_half_even_nonneg; nia).
    repeat split; lia.
Qed.

Lemma micros_exact t :
  0 < t < 1000 * 2 ^ 33 -> micros_of_float (rne53 t 1000) = 1000 * t.
Proof.
  intros Ht.
  destruct (micros_shape t) as (A & B & R & m' & _ & HA & HB & HR0 & HR & Hm0 & Hm & ->);
    [lia |].
  specialize (HA ltac:(lia)).
  pose proof (Z.div_mod t 1000 ltac:(lia)) as Hdm.
  pose proof (Z.mod_pos_bound t 1000 ltac:(lia)) as Hr0.
  set (q0 := t / 1000) in *. set (r0 := t mod 1000) in *.
  change (2 ^ 20) with 1048576 in HA. change (2 ^ 33) with 8589934592 in HB.
  rewrite (round_half_even_unique m' B (1000 * r0)); [lia | lia |].
  assert (H1 : Z.abs (1000000 * R * B - 1000 * r0 * A * B) <= 500000 * B) by nia.
  assert (H2 : 2 * A * Z.abs (B * (1000 * r0) - m') <= 1000000 * B + A) by nia.
  assert (H3 : 1000000 * B + A < A * B) by nia.
  nia.
Qed.

Lemma micros_near t :
  0 < t < 1000 * 2 ^ 38 ->
  Z.abs (micros_of_float (rne53 t 1000) - 1000 * t) <= 16
  /\ (t / 1000) * 1000000 <= micros_of_float (rne53 t 1000)
     < (t / 1000) * 1000000 + 1000000
  /\ (t mod 1000 = 0 -> micros_of_float (rne53 t 1000) = 1000 * t).
Proof.
  intros Ht.
  destruct (micros_shape t) as (A & B & R & m' & HA & _ & HB & HR0 & HR & Hm0 & Hm & ->);
    [lia |].
  pose proof (Z.div_mod t 1000 ltac:(lia)) as Hdm.
  pose proof (Z.mod_pos_bound t 1000 ltac:(lia)) as Hr0.
  set (q0 := t / 1000) in *. set (r0 := t mod 1000) in *.
  change (2 ^ 15) with 32768 in HA. change (2 ^ 33) with 8589934592 in HB.
  pose proof (round_half_even_near m' B ltac:(lia)) as Hu.
  pose proof (round_half_even_nonneg m' B ltac:(lia) Hm0) as Hu0.
  set (u := round_half_even m' B) in *.
  assert (H1 : Z.abs (1000000 * R * B - 1000 * r0 * A * B) <= 500000 * B) by nia.
  assert (H2 : 2 * A * B * Z.abs (u - 1000 * r0) <= A * B + A + 1000000 * B) by nia.
  assert (H3 : A * B + A + 1000000 * B < 33 * A * B) by nia.
  assert (H4 : Z.abs (u - 1000 * r0) <= 16) by nia.
  repeat split; try lia.
  intros Hz. change (r0 = 0) in Hz. clearbody r0 q0. subst r0.
  assert (R = 0) by lia. subst R.
  assert (m' = 0) by nia. subst m'.
  unfold u, round_half_even. rewrite Z.div_0_l, Z.mod_0_l by lia.
  change (2 * 0) with 0.
  destruct (Z.ltb_spec 0 B); lia.
Qed.

Lemma trunc_fneg x : trunc (fneg x) = - trunc x.
Proof.
  unfold trunc, fneg; cbn [fm fe]. destruct (Z.leb_spec 0 (fe x)).
  - ring.
  - apply Z.quot_opp_l.
    assert (0 < 2 ^ (- fe x)) by (apply Z.pow_pos_nonneg; lia). lia.
Qed.

Lemma frac_fneg x : frac (fneg x) = fneg (frac x).
Proof.
  unfold frac, fneg; cbn [fm fe]. destruct (Z.leb_spec 0 (fe x)).
  - reflexivity.
  - cbn [fm fe]. f_equal. apply Z.rem_opp_l.
    assert (0 < 2 ^ (- fe x)) by (apply Z.pow_pos_nonneg; lia). lia.
Qed.

Lemma frac_nonneg x : 0 <= fm x -> 0 <= fm (frac x).
Proof.
  intros H; unfold frac. destruct (Z.leb_spec 0 (fe x)); cbn [fm]; [lia |].
  apply Z.rem_nonneg; [| exact H].
  assert (0 < 2 ^ (- fe x)) by (apply Z.pow_pos_nonneg; lia). lia.
Qed.

Lemma round_float_fneg x : round_float (fneg x) = - round_float x.
Proof.
  unfold round_float, fneg; cbn [fm fe]. destruct (Z.leb_spec 0 (fe x)).
  - ring.
  - apply round_half_even_opp. apply Z.pow_pos_nonneg; lia.
Qed.

Lemma round_mul_1e6_fneg y :
  0 <= fm y ->
  round_float (mul_1e6 (fneg y)) = - round_float (mul_1e6 y).
Proof.
  intros Hy. destruct (Z.eq_dec (fm y) 0) as [E | E].
  - unfold mul_1e6, fneg; cbn [fm fe]. rewrite E. cbn [Z.opp Z.abs Z.mul].
    unfold rne53; cbn [Z.mul Z.eqb]. destruct (0 <=? fe y); reflexivity.
  - rewrite <- round_float_fneg. f_equal.
    unfold mul_1e6, fneg; cbn [fm fe]. rewrite Z.abs_opp.
    destruct (Z.ltb_spec (- fm y) 0); [| lia].
    destruct (Z.ltb_spec (fm y) 0); [lia |].
    reflexivity.
Qed.

Lemma micros_of_float_fneg x :
  0 <= fm x -> micros_of_float (fneg x) = - micros_of_float x.
Proof.
  intros H; unfold micros_of_float.
  rewrite trunc_fneg, frac_fneg, round_mul_1e6_fneg by (apply frac_nonneg, H).
  ring.
Qed.

Lemma rne53_nonneg n d : 0 <= n -> 0 < d -> 0 <= fm (rne53 n d).
Proof.
  intros Hn Hd; unfold rne53. destruct (n =? 0); cbn [fm]; [lia |].
  destruct (Z.leb_spec 0 (ilog2_ratio n d - 52)).
  - apply round_half_even_nonneg; [| exact Hn].
    assert (0 < 2 ^ (ilog2_ratio n d - 52)) by (apply Z.pow_pos_nonneg; lia).
    nia.
  - apply round_half_even_nonneg; [exact Hd |].
    assert (0 < 2 ^ (- (ilog2_ratio n d - 52))) by (apply Z.pow_pos_nonneg; lia).
    nia.
Qed.

(** Within the accepted range the quotient never overflows, and its
    exponent is negative. *)
Lemma true_divide_in_range t :
  Z.abs t < 1000 * 2 ^ 38 ->
  true_divide t 1000
  = Return (if t <? 0 then fneg (rne53 (Z.abs t) 1000)
            else rne53 (Z.abs t) 1000).
Proof.
  intros Ht; unfold true_divide.
  assert (E : fm (rne53 (Z.abs t) 1000) * 2 ^ fe (rne53 (Z.abs t) 1000) = 0).
  { unfold rne53. destruct (Z.eqb_spec (Z.abs t) 0); cbn [fm fe]; [reflexivity |].
    assert (Hk : ilog2_ratio (Z.abs t) 1000 < 38)
      by (apply ilog2_ratio_below; lia).
    rewrite (Z.pow_neg_r 2 (ilog2_ratio (Z.abs t) 1000 - 52)) by lia. ring. }
  rewrite E. reflexivity.
Qed.

(** What [datetime.fromtimestamp(t / 1000)] returns on valid epoch
    milliseconds: a point in time within 16 microseconds of [t]
    milliseconds, and exactly [t] milliseconds below [2 ^ 33] seconds. *)
Lemma fromtimestamp_ms_valid t :
  valid_millis t ->
  exists d,
    fromtimestamp_ms t = Return d
    /\ Z.abs (micros d - 1000 * t) <= 16
    /\ (Z.abs t < 1000 * 2 ^ 33 -> micros d = 1000 * t).
Proof.
  unfold valid_millis, min_seconds, max_seconds; intros Ht.
  unfold fromtimestamp_ms. rewrite true_divide_in_range by lia.
  cbn [bind_raises]. unfold fromtimestamp.
  assert (Hus : exists us,
             micros_of_float (if t <? 0 then fneg (rne53 (Z.abs t) 1000)
                              else rne53 (Z.abs t) 1000) = us
             /\ Z.abs (us - 1000 * t) <= 16
             /\ (Z.abs t < 1000 * 2 ^ 33 -> us = 1000 * t)
             /\ -62135510400 <= us / 1000000 <= 253402300799).
  { destruct (Z.ltb_spec t 0) as [Hneg | Hpos].
    - rewrite micros_of_float_fneg by (apply rne53_nonneg; lia).
      rewrite (Z.abs_neq t) by lia.
      destruct (micros_near (- t) ltac:(lia)) as (Hn & Hb & Hz).
      eexists; split; [reflexivity |]. split; [lia |].
      split; [intros Hx; rewrite micros_exact by lia; lia |].
      pose proof (Z.div_mod (- t) 1000 ltac:(lia)) as Hdm.
      pose proof (Z.mod_pos_bound (- t) 1000 ltac:(lia)) as Hr0.
      set (u := micros_of_float (rne53 (- t) 1000)) in *.
      split; [| apply Z.div_le_upper_bound; lia].
      apply Z.div_le_lower_bound; [lia |].
      destruct (Z.eq_dec ((- t) mod 1000) 0) as [E | E]; [rewrite (Hz E); lia |].
      lia.
    - rewrite (Z.abs_eq t) by lia.
      destruct (Z.eq_dec t 0) as [-> | Hnz].
      + exists 0. repeat split; try reflexivity; intros; discriminate.
      + destruct (micros_near t ltac:(lia)) as (Hn & Hb & Hz).
        eexists; split; [reflexivity |]. split; [lia |].
        split; [intros Hx; rewrite micros_exact by lia; lia |].
        pose proof (Z.div_mod t 1000 ltac:(lia)) as Hdm.
        pose proof (Z.mod_pos_bound t 1000 ltac:(lia)) as Hr0.
        split; [apply Z.div_le_lower_bound; lia |].
        apply Z.lt_succ_r, Z.div_lt_upper_bound; lia. }
  destruct Hus as (us & -> & Hn & Hx & Hlo & Hhi).
  exists (mk_datetime us). cbn [micros].
  unfold min_seconds, max_seconds.
  destruct (Z.leb_spec (-62135510400) (us / 1000000)); [| lia].
  destruct (Z.leb_spec (us / 1000000) 253402300799); [| lia].
  repeat split; assumption.
Qed.

(** C9: on every valid epoch-millisecond integer the timestamp
    normalizer returns a point in time whose milliseconds, rounded to the
    nearest, are the integer it was given; the point in time is within 16
    microseconds of it. *)
Theorem C9_millis_round_trip (t : Z) :
  valid_millis t ->
  exists d,
    parse_timestamp (PInt t) = Return (PDatetime d)
    /\ to_millis d = t
    /\ Z.abs (micros d - 1000 * t) <= 16.
Proof.
  intros Ht. destruct (fromtimestamp_ms_valid t Ht) as (d & Hd & Hn & _).
  exists d. cbn [parse_timestamp py_int]. rewrite Hd. cbn [bind_raises].
  repeat split; [| exact Hn].
  unfold to_millis. apply round_half_even_unique; lia.
Qed.

Lemma C9_witness :
  valid_millis 1700000000123
  /\ exists d,
      parse_timestamp (PInt 1700000000123) = Return (PDatetime d)
      /\ to_millis d = 1700000000123
      /\ Z.abs (micros d - 1000 * 1700000000123) <= 16.
Proof.
  assert (H : valid_millis 1700000000123)
    by (unfold valid_millis, min_seconds, max_seconds; lia).
  split; [exact H | exact (C9_millis_round_trip 1700000000123 H)].
Defined.

Lemma parse_timestamp_convertible v t :
  py_int v = Return t ->
  parse_timestamp v
  = bind_raises (fromtimestamp_ms t) (fun d => Return (PDatetime d)).
Proof.
  destruct v; simpl; intros H; try discriminate;
    try (inversion H; reflexivity).
  destruct (int_of_str s); inversion H; reflexivity.
Qed.




(** ** Closed instances *)

Lemma C6_witness :
  (forall l, PInt 3 <> PList l) /\ PInt 3 <> PNone
  /\ (forall s, PInt 3 <> PStr s)
  /\ parse_content string text_parse (PInt 3)
     = Raise ValueError_content_must_be_str.
Proof.
  assert (H1 : forall l, PInt 3 <> PList l) by (intros l; discriminate).
  assert (H2 : PInt 3 <> PNone) by discriminate.
  assert (H3 : forall s, PInt 3 <> PStr s) by (intros s; discriminate).
  split; [exact H1 |]. split; [exact H2 |]. split; [exact H3 |].
  exact (proj2 (proj2 (proj2 (C6_parse_content string text_parse)))
           (PInt 3) H1 H2 H3).
Defined.




(** C5, as stated, fails: a body that is no mapping makes the decode of
    a ping fail, and a mapping is kept on the decoded payload. *)
Lemma C5_counterexample :
  (exists errs,
      validate_PayloadType string text_parse text_element
        (PDict [("op", PInt 1); ("body", PStr "junk")])
      = ([], Invalid errs))
  /\ validate_PayloadType string text_parse text_element
       (PDict [("op", PInt 1); ("body", PDict [("a", PInt 1)])])
     = ([], Valid (APingPayload string
                     (mk_PingPayload PING (Some [("a", PInt 1)]))))
  /\ validate_PayloadType string text_parse text_element
       (PDict [("op", PInt 1); ("body", PDict [("a", PInt 1)])])
     <> validate_PayloadType string text_parse text_element
          (PDict [("op", PInt 1)]).
Proof.
  split; [eexists; reflexivity |]. split; [reflexivity | discriminate].
Qed.

Lemma C5_witness :
  (PING = PING \/ PING = PONG)
  /\ get "op" [("op", PInt 1)] = Some (PInt (Opcode_value PING))
  /\ (get "body" [("op", PInt 1)] = None
      \/ get "body" [("op", PInt 1)] = Some PNone)
  /\ validate_PayloadType string text_parse text_element
       (PDict [("op", PInt 1)])
     = ([], Valid (ping_or_pong string PING None)).
Proof.
  assert (H0 : PING = PING \/ PING = PONG) by (left; reflexivity).
  assert (H1 : get "op" [("op", PInt 1)] = Some (PInt (Opcode_value PING)))
    by reflexivity.
  assert (H2 : get "body" [("op", PInt 1)] = None
               \/ get "body" [("op", PInt 1)] = Some PNone)
    by (left; reflexivity).
  split; [exact H0 |]. split; [exact H1 |]. split; [exact H2 |].
  exact (proj1 (C5_ping_pong string text_parse text_element
                  [("op", PInt 1)] PING H0 H1) H2).
Defined.


Lemma C8_witness :
  validate_OuterMember
    [("user", PDict [("id", PStr "u1")]); ("joined_at", PInt 1700000000123)]
  = ([], Valid (mk_OuterMember (mk_User "u1" None None None []) None None
                  (mk_datetime 1700000000123000) []))
  /\ validate_InnerMember
       [("user", PDict [("id", PStr "u1")]); ("joined_at", PInt 1700000000123)]
     = ([], Valid (OuterMember_as_inner
                     (mk_OuterMember (mk_User "u1" None None None []) None
                        None (mk_datetime 1700000000123000) []))).
Proof.
  assert (H1 : validate_OuterMember
                 [("user", PDict [("id", PStr "u1")]);
                  ("joined_at", PInt 1700000000123)]
               = ([], Valid (mk_OuterMember (mk_User "u1" None None None [])
                               None None (mk_datetime 1700000000123000) [])))
    by (vm_compute; reflexivity).
  split; [exact H1 |].
  exact (proj1 (C8_outer_is_inner string text_parse text_element) _ _ _ H1).
Defined.





(** * Further properties of the models *)

Section Coverage.

Variable Element : Type.
Variable parse : string -> option (list Element).
Variable validate_Element : PyVal -> option Element.

Local Abbreviation decode := (validate_PayloadType Element parse validate_Element).
Local Abbreviation Event_of := (validate_Event Element parse validate_Element).
Local Abbreviation EventPayload_of :=
  (validate_EventPayload Element parse validate_Element).
Local Abbreviation InnerMessage_of :=
  (validate_InnerMessage Element parse validate_Element).

(** ** Reported errors *)

Lemma reports_invalid_one {A : Type} (e : Error) :
  reports e (([], Invalid [e]) : V A).
Proof.
  split; [reflexivity |]. intros errs H; inversion H; left; reflexivity.
Qed.

Lemma reports_at_loc {A : Type} (i : LocItem) p k (v : V A) :
  reports (mk_error p k) v -> reports (mk_error (i :: p) k) (at_loc i v).
Proof.
  unfold reports, is_valid, outcome.
  destruct v as [l [x | errs | e]]; simpl; intros [Hv Hin]; try discriminate;
    split; try reflexivity; intros errs' H; inversion H; subst.
  apply (in_map (fun e => mk_error (i :: loc e) (kind e)) errs
           (mk_error p k)), Hin; reflexivity.
Qed.

Lemma reports_fmap {A B : Type} (g : A -> B) e (v : V A) :
  reports e v -> reports e (fmap g v).
Proof.
  unfold reports, is_valid, outcome.
  destruct v as [l [x | errs | ex]]; simpl; intros [Hv Hin]; try discriminate;
    split; try reflexivity; intros errs' H; inversion H; subst; auto.
Qed.

Lemma reports_not_none {A : Type} e (v : V (option A)) :
  reports e v -> reports e (not_none v).
Proof.
  unfold reports, is_valid, outcome.
  destruct v as [l [x | errs | ex]]; simpl; intros [Hv Hin]; try discriminate;
    split; try reflexivity; intros errs' H; inversion H; subst; auto.
Qed.

Lemma reports_required_missing {A : Type} pre (validate : PyVal -> V A)
  name m :
  get name m = None ->
  reports (mk_error [LKey name] MissingError)
    (required_with pre validate name m).
Proof.
  intros H; unfold required_with; rewrite H. apply reports_invalid_one.
Qed.

Lemma reports_required_value {A : Type} (validate : PyVal -> V A) name m v p k :
  get name m = Some v -> v <> PNone ->
  reports (mk_error p k) (validate v) ->
  reports (mk_error (LKey name :: p) k) (required validate name m).
Proof.
  intros Hget Hv H; unfold required, required_with; rewrite Hget.
  rewrite validate_field_no_pre by exact Hv.
  apply reports_at_loc, reports_not_none, reports_fmap, H.
Qed.

Lemma reports_optional_value {A : Type} (validate : PyVal -> V A) name m v p k :
  get name m = Some v -> v <> PNone ->
  reports (mk_error p k) (validate v) ->
  reports (mk_error (LKey name :: p) k) (optional validate name m).
Proof.
  intros Hget Hv H; unfold optional, optional_with; rewrite Hget.
  rewrite validate_field_no_pre by exact Hv.
  apply reports_at_loc, reports_fmap, H.
Qed.

(** Finds the failing field in the chain of fields of a model. *)
Ltac failing_field tac :=
  repeat first [ apply reports_ap_r; solve [tac] | apply reports_ap_l ].

(** X1: an event reports every required field that its raw map lacks:
    whenever the validation ends in a validation error, that error lists
    "field required" under the name of the missing field, for each of
    [id], [type], [platform], [self_id] and [timestamp]. *)
Theorem X1_event_reports_missing :
  Forall
    (fun name =>
       forall m, get name m = None ->
                 reports (mk_error [LKey name] MissingError) (Event_of m))
    ["id"; "type"; "platform"; "self_id"; "timestamp"].
Proof.
  repeat apply Forall_cons; try apply Forall_nil; intros m H;
    unfold validate_Event, required;
    failing_field ltac:(apply reports_required_missing; exact H).
Qed.

Lemma int_validator_py_int v z :
  py_int v = Return z -> int_validator v = pure z.
Proof.
  destruct v; simpl; intros H; try discriminate;
    try (inversion H; reflexivity).
  destruct (int_of_str s); inversion H; reflexivity.
Qed.

Lemma py_int_not_none v z : py_int v = Return z -> v <> PNone.
Proof. intros H ->; discriminate. Qed.

Lemma reports_enum_member {A : Type} (of_int : Z -> option A) v z :
  py_int v = Return z -> of_int z = None ->
  reports (mk_error [] EnumMemberError) (enum_validator of_int v).
Proof.
  intros Hv Hz; unfold enum_validator.
  rewrite (int_validator_py_int v z Hv), bind_pure, Hz.
  apply reports_invalid_one.
Qed.

Lemma reports_enum_integer {A : Type} (of_int : Z -> option A) v e :
  (forall z, v <> PInt z) -> py_int v = Raise e ->
  reports (mk_error [] IntegerError) (enum_validator of_int v).
Proof.
  intros Hn Hv; unfold enum_validator.
  assert (E : int_validator v = invalid IntegerError).
  { destruct v; simpl in *; try reflexivity; try discriminate.
    - destruct (int_of_str s); [discriminate | reflexivity]. }
  rewrite E. apply reports_invalid_one.
Qed.

Lemma ChannelType_of_int_unknown z :
  z < 0 \/ 3 < z -> ChannelType_of_int z = None.
Proof.
  intros H; destruct z as [| p | p]; try lia; try reflexivity.
  destruct p as [[p | p |] | [p | p |] |]; try reflexivity; lia.
Qed.

Lemma LoginStatus_of_int_unknown z :
  z < 0 \/ 4 < z -> LoginStatus_of_int z = None.
Proof.
  intros H; destruct z as [| p | p]; try lia; try reflexivity.
  destruct p as [[p | p |] | [[p | p |] | [p | p |] |] |]; try reflexivity; lia.
Qed.


Lemma reports_Model_PDict {A : Type} (validate : RawMap -> V A) d e :
  reports e (validate d) -> reports e (Model_validate validate (PDict d)).
Proof. intros H; exact H. Qed.

(** X3: an error inside a nested entity is reported under the path of
    keys that leads to it: what the member of an event reports, the event
    reports under [member]; so a member whose user lacks its [id] makes
    the event report "field required" at [member], [user], [id]. *)
Theorem X3_nested_error_path (b d : RawMap) :
  get "member" b = Some (PDict d) ->
  (forall p k,
      reports (mk_error p k) (validate_InnerMember d) ->
      reports (mk_error (LKey "member" :: p) k) (Event_of b))
  /\ (forall u,
        get "user" d = Some (PDict u) -> get "id" u = None ->
        reports (mk_error [LKey "member"; LKey "user"; LKey "id"] MissingError)
          (Event_of b)).
Proof.
  intros Hm.
  assert (Hgen : forall p k,
             reports (mk_error p k) (validate_InnerMember d) ->
             reports (mk_error (LKey "member" :: p) k) (Event_of b)).
  { intros p k H. unfold validate_Event.
    failing_field
      ltac:(apply (reports_optional_value _ _ _ (PDict d));
            [exact Hm | discriminate | exact H]). }
  split; [exact Hgen |].
  intros u Hu Hid. apply Hgen. unfold validate_InnerMember.
  failing_field
    ltac:(apply (reports_optional_value _ _ _ (PDict u));
          [ exact Hu | discriminate
          | apply reports_Model_PDict; unfold validate_User, required;
            failing_field ltac:(apply reports_required_missing; exact Hid) ]).
Qed.

(** ** Null and absent optional fields *)

Lemma optional_with_null_absent {A : Type} pre (validate : PyVal -> V A)
  name (m m' : RawMap) :
  pre PNone = Return PNone ->
  get name m = Some PNone -> get name m' = None ->
  optional_with pre validate name m = optional_with pre validate name m'.
Proof.
  intros Hpre H H'; unfold optional_with, validate_field.
  rewrite H, H', Hpre; reflexivity.
Qed.

(** Rewrites the fields read from [set_key c PNone m] into the fields
    read from [remove_key c m]. *)
Ltac null_as_absent m :=
  unfold required, optional;
  repeat match goal with
         | |- context [required_with ?p ?v ?n (set_key ?c PNone m)] =>
             rewrite (required_with_ext p v n (set_key c PNone m)
                        (remove_key c m))
               by (rewrite get_set_key, get_remove_key; reflexivity)
         | |- context [optional_with ?p ?v ?n (set_key ?c PNone m)] =>
             first
               [ rewrite (optional_with_ext p v n (set_key c PNone m)
                            (remove_key c m))
                   by (rewrite get_set_key, get_remove_key; reflexivity)
               | rewrite (optional_with_null_absent p v n
                            (set_key c PNone m) (remove_key c m))
                   by first [ reflexivity
                            | rewrite get_set_key; reflexivity
                            | rewrite get_remove_key; reflexivity ] ]
         end;
  rewrite ?extra_allow_set_key, ?extra_allow_remove_key by reflexivity.

(** X4: for the optional fields an explicit null is the same as an
    absent key: setting any optional field of an event, or any field of
    an inner member, to null gives the very result (value, errors and
    logs) that removing the key gives. *)
Theorem X4_null_is_absent :
  Forall
    (fun name =>
       forall m, Event_of (set_key name PNone m)
                 = Event_of (remove_key name m))
    ["channel"; "guild"; "login"; "member"; "message"; "operator"; "role";
     "user"]
  /\ Forall
       (fun name =>
          forall m, validate_InnerMember (set_key name PNone m)
                    = validate_InnerMember (remove_key name m))
       ["user"; "name"; "avatar"; "joined_at"].
Proof.
  split; repeat apply Forall_cons; try apply Forall_nil; intros m;
    unfold validate_Event, validate_InnerMember; null_as_absent m;
    reflexivity.
Qed.

(** ** Closed models *)

Lemma defaulted_ext {A : Type} (a : A) (validate : PyVal -> V A) name
  (m m' : RawMap) :
  get name m = get name m' ->
  defaulted a validate name m = defaulted a validate name m'.
Proof. intros H; unfold defaulted; rewrite H; reflexivity. Qed.

(** Rewrites the fields read from the declared part of [m] into the
    fields read from [m]. *)
Ltac from_declared m :=
  unfold required, optional;
  repeat match goal with
         | |- context [required_with ?p ?v ?n (declared ?F m)] =>
             rewrite (required_with_ext p v n (declared F m) m
                        (get_declared F m n eq_refl))
         | |- context [optional_with ?p ?v ?n (declared ?F m)] =>
             rewrite (optional_with_ext p v n (declared F m) m
                        (get_declared F m n eq_refl))
         | |- context [defaulted ?a ?v ?n (declared ?F m)] =>
             rewrite (defaulted_ext a v n (declared F m) m
                        (get_declared F m n eq_refl))
         end.

(** X5: the envelope, its five concrete payloads and the bodies
    [Identify] and [Ready] are closed models: they read their declared
    fields only, so unknown keys of the raw map change neither the
    decoded value nor the errors, and are not kept. *)
Theorem X5_closed_models :
  closed_schema ["op"; "body"] validate_Payload
  /\ closed_schema ["op"; "body"] EventPayload_of
  /\ closed_schema ["op"; "body"] validate_PingPayload
  /\ closed_schema ["op"; "body"] validate_PongPayload
  /\ closed_schema ["op"; "body"] validate_IdentifyPayload
  /\ closed_schema ["op"; "body"] validate_ReadyPayload
  /\ closed_schema ["token"; "sequence"] validate_Identify
  /\ closed_schema ["logins"] validate_Ready.
Proof.
  repeat split; intros m;
    unfold validate_Payload, validate_EventPayload, validate_PingPayload,
      validate_PongPayload, validate_IdentifyPayload, validate_ReadyPayload,
      validate_Identify, validate_Ready;
    from_declared m; reflexivity.
Qed.

(** ** The opcode of a decoded payload *)

Lemma or_else_valid_inv {A : Type} (v w : V A) l x :
  or_else v w = (l, Valid x) ->
  v = (l, Valid x)
  \/ exists l1 errs l2,
      v = (l1, Invalid errs) /\ w = (l2, Valid x) /\ l = l1 ++ l2.
Proof.
  destruct v as [l1 [y | e1 | ex]], w as [l2 [y' | e2 | ex']];
    simpl; intros H; inversion H; subst; try (left; reflexivity).
  right; exists l1, e1, l2; repeat split; reflexivity.
Qed.

Lemma fmap_valid_inv {A B : Type} (g : A -> B) (v : V A) l y :
  fmap g v = (l, Valid y) -> exists x, v = (l, Valid x) /\ y = g x.
Proof.
  destruct v as [l1 [x | e1 | ex]]; simpl; intros H; inversion H; subst.
  exists x; split; reflexivity.
Qed.

Lemma key_eqb_py_int v k : key_eqb v (PInt k) = true -> py_int v = Return k.
Proof.
  destruct v; simpl; intros H; try discriminate.
  - apply Z.eqb_eq in H; subst; reflexivity.
  - apply Z.eqb_eq in H; subst; reflexivity.
Qed.

Lemma PyVal_is_none (v : PyVal) : v = PNone \/ v <> PNone.
Proof. destruct v; [left; reflexivity | right; discriminate ..]. Qed.

Lemma defaulted_literal_valid o name m v l x :
  get name m = Some v ->
  defaulted o (literal_validator o) name m = (l, Valid x) ->
  x = o /\ py_int v = Return (Opcode_value o).
Proof.
  intros Hget; unfold defaulted; rewrite Hget. intros H.
  apply at_loc_valid_inv, not_none_valid_inv in H.
  destruct (PyVal_is_none v) as [-> | Hv]; [inversion H |].
  rewrite validate_field_no_pre in H by exact Hv.
  apply fmap_valid_inv in H; destruct H as (y & H & E); inversion E; subst y.
  unfold literal_validator in H.
  destruct (key_eqb v (PInt (Opcode_value o))) eqn:Hk; inversion H; subst.
  split; [reflexivity | apply key_eqb_py_int, Hk].
Qed.

Lemma required_enum_valid {A : Type} (of_int : Z -> option A) name m v z l x :
  get name m = Some v -> py_int v = Return z ->
  required (enum_validator of_int) name m = (l, Valid x) ->
  of_int z = Some x.
Proof.
  intros Hget Hv; unfold required, required_with; rewrite Hget. intros H.
  apply at_loc_valid_inv, not_none_valid_inv in H.
  rewrite validate_field_no_pre in H by exact (py_int_not_none v z Hv).
  apply fmap_valid_inv in H; destruct H as (y & H & E); inversion E; subst y.
  unfold enum_validator in H.
  rewrite (int_validator_py_int v z Hv), bind_pure in H.
  destruct (of_int z); inversion H; reflexivity.
Qed.

Lemma Opcode_of_value o : Opcode_of_int (Opcode_value o) = Some o.
Proof. destruct o; reflexivity. Qed.

(** Reads a successful chain of fields back into the success of each
    field (as in the section above). *)
Ltac fields_inv H :=
  repeat match type of H with
         | ap _ _ = (_, Valid _) =>
             let l1 := fresh "l" in
             let g := fresh "g" in
             let l2 := fresh "l" in
             let x := fresh "x" in
             let Ha := fresh "Ha" in
             apply ap_valid_inv in H;
             destruct H as (l1 & g & l2 & x & H & Ha & -> & ->);
             try (apply pure_valid_inv in Ha; destruct Ha as [-> ->])
         | pure _ = (_, Valid _) =>
             apply pure_valid_inv in H; destruct H as [-> ->]
         end.

(** X6: the opcode of a decoded payload is the raw opcode: whenever an
    envelope whose [op] converts to the integer [z] decodes, to a
    concrete payload or to the plain envelope, [z] is the value of the
    opcode the decoded payload carries. *)
Theorem X6_decoded_opcode (m : RawMap) (v : PyVal) (z : Z) l p :
  get "op" m = Some v ->
  py_int v = Return z ->
  decode (PDict m) = (l, Valid p) ->
  Opcode_of_int z = Some (payload_op Element p).
Proof.
  intros Hop Hv H. unfold validate_PayloadType, Model_validate in H.
  assert (Hlit : forall o l' x,
             defaulted o (literal_validator o) "op" m = (l', Valid x) ->
             Opcode_of_int z = Some x).
  { intros o l' x Hd.
    destruct (defaulted_literal_valid o "op" m v l' x Hop Hd) as [-> Hz].
    rewrite Hv in Hz; inversion Hz; apply Opcode_of_value. }
  repeat match type of H with
         | or_else _ _ = (_, Valid _) =>
             apply or_else_valid_inv in H;
             destruct H as [H | (? & ? & ? & _ & H & _)]
         end;
    apply fmap_valid_inv in H; destruct H as (q & H & ->);
    cbn [payload_op];
    [ unfold validate_EventPayload in H | unfold validate_PingPayload in H
    | unfold validate_PongPayload in H | unfold validate_IdentifyPayload in H
    | unfold validate_ReadyPayload in H | unfold validate_Payload in H ];
    fields_inv H;
    cbn [EventPayload_op PingPayload_op PongPayload_op IdentifyPayload_op
           ReadyPayload_op Payload_op];
    first [ eapply Hlit; eassumption
          | eapply required_enum_valid; eassumption ].
Qed.

(** ** Walking the union *)

Lemma failed_silent {A : Type} (v : V A) :
  silent v -> contained v -> is_valid v = false ->
  exists errs, v = ([], Invalid errs).
Proof.
  unfold silent, contained, is_valid, logs, outcome.
  destruct v as [l [x | errs | e]]; simpl; intros -> Hc Hv;
    try discriminate; [eauto |].
  exfalso; exact (Hc e eq_refl).
Qed.

Lemma literal_rejects o name m v :
  get name m = Some v ->
  key_eqb v (PInt (Opcode_value o)) = false ->
  is_valid (defaulted o (literal_validator o) name m) = false.
Proof.
  intros Hget Hk; unfold defaulted; rewrite Hget.
  destruct (PyVal_is_none v) as [-> | Hv]; [reflexivity |].
  rewrite validate_field_no_pre by exact Hv.
  unfold literal_validator; rewrite Hk; reflexivity.
Qed.

Lemma PingPayload_rejected m v :
  get "op" m = Some v -> key_eqb v (PInt 1) = false ->
  exists errs, validate_PingPayload m = ([], Invalid errs).
Proof.
  intros Hop Hk. apply failed_silent; auto with silent contained.
  unfold validate_PingPayload.
  apply ap_not_valid_l, ap_not_valid_r, (literal_rejects PING "op" m v Hop Hk).
Qed.

Lemma PongPayload_rejected m v :
  get "op" m = Some v -> key_eqb v (PInt 2) = false ->
  exists errs, validate_PongPayload m = ([], Invalid errs).
Proof.
  intros Hop Hk. apply failed_silent; auto with silent contained.
  unfold validate_PongPayload.
  apply ap_not_valid_l, ap_not_valid_r, (literal_rejects PONG "op" m v Hop Hk).
Qed.

Lemma IdentifyPayload_rejected m v :
  get "op" m = Some v -> key_eqb v (PInt 3) = false ->
  exists errs, validate_IdentifyPayload m = ([], Invalid errs).
Proof.
  intros Hop Hk. apply failed_silent; auto with silent contained.
  unfold validate_IdentifyPayload.
  apply ap_not_valid_l, ap_not_valid_r,
    (literal_rejects IDENTIFY "op" m v Hop Hk).
Qed.

Lemma ReadyPayload_rejected m v :
  get "op" m = Some v -> key_eqb v (PInt 4) = false ->
  exists errs, validate_ReadyPayload m = ([], Invalid errs).
Proof.
  intros Hop Hk. apply failed_silent; auto with silent contained.
  unfold validate_ReadyPayload.
  apply ap_not_valid_l, ap_not_valid_r, (literal_rejects READY "op" m v Hop Hk).
Qed.

(** The event payload on a mapping body that is no event, or under an
    opcode that is not [EVENT]: it fails, after the logs of reading the
    body as an event. *)
Lemma EventPayload_rejected m d :
  get "body" m = Some (PDict d) ->
  contained (Event_of d) ->
  is_valid (defaulted EVENT (literal_validator EVENT) "op" m) = false
  \/ is_valid (Event_of d) = false ->
  exists errs, EventPayload_of m = (logs (Event_of d), Invalid errs).
Proof.
  intros Hbody Hc Hor. unfold validate_EventPayload, required, required_with.
  rewrite Hbody, validate_field_no_pre by discriminate.
  unfold Model_validate.
  pose proof (silent_defaulted EVENT (literal_validator EVENT) "op" m
                (silent_literal_validator EVENT)) as Hs.
  pose proof (contained_defaulted EVENT (literal_validator EVENT) "op" m
                (contained_literal_validator EVENT)) as Hcd.
  destruct (defaulted EVENT (literal_validator EVENT) "op" m)
    as [l0 [o | e0 | ex0]]; unfold silent, logs in Hs; simpl in Hs; subst l0;
    [| | exfalso; exact (Hcd ex0 eq_refl)];
    destruct (Event_of d) as [l [ev | errs | e]]; simpl;
    try (exfalso; exact (Hc e eq_refl)); try rewrite app_nil_r; eauto.
  destruct Hor; discriminate.
Qed.

Lemma EventPayload_no_body m :
  get "body" m = None \/ get "body" m = Some PNone ->
  exists errs, EventPayload_of m = ([], Invalid errs).
Proof.
  intros Hbody. apply failed_silent.
  - unfold validate_EventPayload, required, required_with.
    destruct Hbody as [-> | ->]; auto 10 with silent.
    apply silent_ap; auto with silent. reflexivity.
  - unfold validate_EventPayload, required, required_with.
    destruct Hbody as [-> | ->]; auto 10 with contained.
    apply contained_ap; auto with contained. intros e; discriminate.
  - unfold validate_EventPayload, required, required_with.
    apply ap_not_valid_r. destruct Hbody as [-> | ->]; reflexivity.
Qed.



(** ** Ready and Identify *)

Lemma validate_items_Forall2 {A : Type} (validate : PyVal -> V A) items :
  (forall w, silent (validate w)) ->
  forall i l xs,
    validate_items validate i items = (l, Valid xs) ->
    l = [] /\ Forall2 (fun item x => validate item = ([], Valid x)) items xs.
Proof.
  intros Hs; induction items as [| item items IH]; intros i l xs H;
    cbn [validate_items] in H.
  - inversion H; split; [reflexivity | constructor].
  - fields_inv H.
    match goal with
    | Hi : at_loc _ (validate item) = _ |- _ =>
        apply at_loc_valid_inv in Hi;
        pose proof (silent_valid _ _ _ (Hs item) Hi); subst;
        match goal with
        | Hr : validate_items _ _ _ = _ |- _ =>
            destruct (IH _ _ _ Hr) as [-> HF]
        end;
        split; [reflexivity | constructor; assumption]
    end.
Qed.

(** X9: the logins of a ready body are read one by one and in order: a
    ready body validates only if [logins] is a list, and then the decoded
    logins are, item by item, the logins its items validate to; nothing
    is logged. *)
Theorem X9_ready_logins (d : RawMap) l (r : Ready) :
  validate_Ready d = (l, Valid r) ->
  l = []
  /\ exists items,
      get "logins" d = Some (PList items)
      /\ Forall2
           (fun item login =>
              Model_validate validate_Login item = ([], Valid login))
           items (Ready_logins r).
Proof.
  intros H. unfold validate_Ready in H. fields_inv H.
  match goal with
  | Hf : required _ "logins" d = _ |- _ =>
      unfold required, required_with in Hf;
      destruct (get "logins" d) as [v |] eqn:Hget; [| inversion Hf];
      apply at_loc_valid_inv, not_none_valid_inv in Hf;
      destruct (PyVal_is_none v) as [-> | Hv]; [inversion Hf |];
      rewrite validate_field_no_pre in Hf by exact Hv;
      apply fmap_valid_inv in Hf; destruct Hf as (y & Hf & E);
      inversion E; subst y;
      destruct v; try (inversion Hf; fail);
      cbn [list_validator] in Hf;
      apply validate_items_Forall2 in Hf;
      [ destruct Hf as [-> HF] | auto with silent ]
  end.
  split; [reflexivity |]. eexists; split; [reflexivity | exact HF].
Qed.



(** ** Exceptions that escape *)

Lemma ap_escapes_r {A B : Type} (f : V (A -> B)) e :
  silent f -> contained f -> ap f ([], Escapes e) = ([], Escapes e).
Proof.
  unfold silent, contained, logs, outcome.
  destruct f as [l [g | errs | ex]]; simpl; intros -> Hc; try reflexivity.
  exfalso; exact (Hc ex eq_refl).
Qed.

Lemma ap_escapes_l {A B : Type} l e (a : V A) :
  ap ((l, Escapes e) : V (A -> B)) a = (l, Escapes e).
Proof. reflexivity. Qed.

Lemma timestamp_escapes name b v t e :
  get name b = Some v -> py_int v = Return t ->
  fromtimestamp_ms t = Raise e -> caught e = false ->
  required_with parse_timestamp datetime_validator name b = ([], Escapes e).
Proof.
  intros Hget Hv Ht He; unfold required_with, validate_field; rewrite Hget.
  rewrite (parse_timestamp_convertible v t Hv), Ht. simpl. rewrite He.
  reflexivity.
Qed.


(** ** At most one warning *)

Lemma amo_silent {A : Type} (v : V A) : silent v -> at_most_one_warning v.
Proof. intros H; left; exact H. Qed.

Lemma amo_ap_l {A B : Type} (f : V (A -> B)) (a : V A) :
  at_most_one_warning f -> silent a -> at_most_one_warning (ap f a).
Proof.
  unfold at_most_one_warning, silent, logs.
  destruct f as [l [g | errs | ex]], a as [l' [x | errs' | ex']]; simpl;
    intros H ->; rewrite ?app_nil_r; exact H.
Qed.

Lemma amo_ap_r {A B : Type} (f : V (A -> B)) (a : V A) :
  silent f -> at_most_one_warning a -> at_most_one_warning (ap f a).
Proof.
  unfold at_most_one_warning, silent, logs.
  destruct f as [l [g | errs | ex]], a as [l' [x | errs' | ex']]; simpl;
    intros -> H; try exact H; left; reflexivity.
Qed.

Lemma amo_fmap {A B : Type} (g : A -> B) (v : V A) :
  at_most_one_warning v -> at_most_one_warning (fmap g v).
Proof.
  unfold at_most_one_warning, logs; destruct v as [l [x | errs | ex]]; auto.
Qed.

Lemma amo_at_loc {A : Type} i (v : V A) :
  at_most_one_warning v -> at_most_one_warning (at_loc i v).
Proof.
  unfold at_most_one_warning, logs; destruct v as [l [x | errs | ex]]; auto.
Qed.

Lemma amo_not_none {A : Type} (v : V (option A)) :
  at_most_one_warning v -> at_most_one_warning (not_none v).
Proof.
  unfold at_most_one_warning, logs;
    destruct v as [l [[x |] | errs | ex]]; simpl; rewrite ?app_nil_r; auto.
Qed.

Lemma amo_Model_validate {A : Type} (validate : RawMap -> V A) v :
  (forall m, at_most_one_warning (validate m)) ->
  at_most_one_warning (Model_validate validate v).
Proof.
  intros H; unfold Model_validate.
  destruct v; auto; try (left; reflexivity);
    destruct (py_dict _); try (left; reflexivity);
    destruct (keywords _); auto; left; reflexivity.
Qed.

Lemma amo_validate_field {A : Type} (validate : PyVal -> V A) v :
  (forall w, at_most_one_warning (validate w)) ->
  at_most_one_warning (validate_field no_pre validate v).
Proof.
  intros H. destruct (PyVal_is_none v) as [-> | Hv]; [left; reflexivity |].
  rewrite validate_field_no_pre by exact Hv. apply amo_fmap, H.
Qed.

Lemma amo_InnerMessage m : at_most_one_warning (InnerMessage_of m).
Proof.
  unfold at_most_one_warning. rewrite logs_validate_InnerMessage.
  destruct (has_key "content" m); [left | right]; reflexivity.
Qed.

Lemma amo_Event b : at_most_one_warning (Event_of b).
Proof.
  unfold validate_Event.
  repeat (apply amo_ap_l;
          [| solve [ unfold required, optional; auto 10 with silent ] ]).
  apply amo_ap_r; [unfold required, optional; auto 20 with silent |].
  unfold optional, optional_with. destruct (get "message" b);
    [| left; reflexivity].
  apply amo_at_loc, amo_validate_field. intros w.
  apply amo_Model_validate, amo_InnerMessage.
Qed.

Lemma silent_or_else {A : Type} (v w : V A) :
  silent v -> silent w -> silent (or_else v w).
Proof.
  unfold silent, logs.
  destruct v as [l [x | errs | ex]], w as [l' [x' | errs' | ex']]; simpl;
    intros -> ->; reflexivity.
Qed.

Lemma amo_or_else {A : Type} (v w : V A) :
  at_most_one_warning v -> silent w -> at_most_one_warning (or_else v w).
Proof.
  unfold at_most_one_warning, silent, logs.
  destruct v as [l [x | errs | ex]], w as [l' [x' | errs' | ex']]; simpl;
    intros H ->; rewrite ?app_nil_r; exact H.
Qed.

(** X13: decoding logs at most once.  Whatever the raw value, the decode
    through the union either logs nothing or logs the one warning about
    a message without content: only the event payload can log, and the
    members tried after it never do. *)
Theorem X13_at_most_one_warning (obj : PyVal) :
  at_most_one_warning (decode obj)
  /\ forall b, at_most_one_warning (Event_of b).
Proof.
  split; [| exact amo_Event].
  unfold validate_PayloadType. destruct obj; try (left; reflexivity);
    (apply amo_or_else;
     [ apply amo_fmap, amo_Model_validate; intros m;
       unfold validate_EventPayload;
       apply amo_ap_r; [auto with silent |];
       unfold required, required_with; destruct (get "body" m);
       [ apply amo_at_loc, amo_not_none, amo_validate_field; intros w;
         apply amo_Model_validate, amo_Event
       | left; reflexivity ]
     | repeat apply silent_or_else; apply silent_fmap;
       auto with silent ]).
Qed.

(** ** Values that are no mapping *)

(** X16: a raw value that is no mapping, and that [dict] cannot turn
    into one, is no payload: every member of the union refuses it as "not
    a valid dict" and the decode fails with those six errors; a null
    value is refused before the union is tried. *)
Theorem X16_not_a_mapping :
  (forall obj,
      obj <> PNone -> py_dict obj = None ->
      decode obj = ([], Invalid (repeat (mk_error [] DictError) 6)))
  /\ decode PNone = ([], Invalid [mk_error [] NoneIsNotAllowedError]).
Proof.
  split; [| reflexivity].
  intros obj Hn Hd. unfold validate_PayloadType.
  rewrite !(Model_validate_not_dict _ obj Hd).
  destruct obj; try reflexivity. contradiction.
Qed.

(** ** Errors of the validators of the source *)

Lemma reports_pre_raises_optional {A : Type} pre (validate : PyVal -> V A)
  name m v e :
  get name m = Some v -> pre v = Raise e -> caught e = true ->
  reports (mk_error [LKey name] (ValidatorError e))
    (optional_with pre validate name m).
Proof.
  intros Hget Hpre He; unfold optional_with, validate_field.
  rewrite Hget, Hpre; simpl; rewrite He. apply reports_invalid_one.
Qed.

Lemma reports_pre_raises_required {A : Type} pre (validate : PyVal -> V A)
  name m v e :
  get name m = Some v -> pre v = Raise e -> caught e = true ->
  reports (mk_error [LKey name] (ValidatorError e))
    (required_with pre validate name m).
Proof.
  intros Hget Hpre He; unfold required_with, validate_field.
  rewrite Hget, Hpre; simpl; rewrite He. apply reports_invalid_one.
Qed.

Lemma parse_timestamp_bad_string s :
  int_of_str s = None ->
  parse_timestamp (PStr s) = Raise (ValueError_invalid_timestamp (PStr s)).
Proof. intros H; simpl; rewrite H; reflexivity. Qed.

Lemma reports_values_of_message {A : Type} (fields : RawMap -> V A) m e :
  (forall values,
      (forall n, String.eqb n "content" = false -> get n values = get n m) ->
      reports e (fields values)) ->
  reports e (values <- ensure_content m ;; fields values).
Proof.
  intros H.
  destruct (ensure_content_cases m) as [[_ He] | [_ He]];
    apply (reports_bind_valid _ _ _ _ _ He), H; intros n Hn; [reflexivity |].
  rewrite get_set_key, Hn; reflexivity.
Qed.


Lemma reports_validate_items {A : Type} (validate : PyVal -> V A) p k items :
  forall n i item,
    nth_error items i = Some item ->
    reports (mk_error p k) (validate item) ->
    reports (mk_error (LIndex (n + i) :: p) k) (validate_items validate n items).
Proof.
  induction items as [| x items IH]; intros n i item Hnth H;
    [destruct i; discriminate |].
  cbn [validate_items]. destruct i as [| i]; simpl in Hnth.
  - inversion Hnth; subst. rewrite Nat.add_0_r.
    apply reports_ap_l, reports_ap_r, reports_at_loc, H.
  - replace (n + S i)%nat with (S n + i)%nat by lia.
    apply reports_ap_r, (IH (S n) i item Hnth H).
Qed.


End Coverage.

(** ** The range of accepted timestamps *)

Lemma fromtimestamp_ms_out_of_range t :
  Z.abs t < 1000 * 2 ^ 38 -> ~ valid_millis t ->
  fromtimestamp_ms t = Raise ValueError_year_out_of_range.
Proof.
  unfold valid_millis, min_seconds, max_seconds; intros Ha Hn.
  unfold fromtimestamp_ms. rewrite true_divide_in_range by lia.
  cbn [bind_raises]. unfold fromtimestamp.
  assert (Hsec : exists sec,
             micros_of_float (if t <? 0 then fneg (rne53 (Z.abs t) 1000)
                              else rne53 (Z.abs t) 1000) / 1000000 = sec
             /\ (sec < -62135510400 \/ 253402300799 < sec)
             /\ - 2 ^ 38 - 1 <= sec <= 2 ^ 38).
  { eexists; split; [reflexivity |].
    destruct (Z.ltb_spec t 0) as [Hneg | Hpos].
    - rewrite micros_of_float_fneg by (apply rne53_nonneg; lia).
      rewrite (Z.abs_neq t) by lia.
      destruct (micros_near (- t) ltac:(lia)) as (Hnear & Hb & Hz).
      pose proof (Z.div_mod (- t) 1000 ltac:(lia)) as Hdm.
      pose proof (Z.mod_pos_bound (- t) 1000 ltac:(lia)) as Hr0.
      set (u := micros_of_float (rne53 (- t) 1000)) in *.
      split.
      + left. apply Z.div_lt_upper_bound; lia.
      + split; [apply Z.div_le_lower_bound; lia
               | apply Z.div_le_upper_bound; lia].
    - rewrite (Z.abs_eq t) by lia.
      destruct (micros_near t ltac:(lia)) as (Hnear & Hb & Hz).
      pose proof (Z.div_mod t 1000 ltac:(lia)) as Hdm.
      pose proof (Z.mod_pos_bound t 1000 ltac:(lia)) as Hr0.
      set (u := micros_of_float (rne53 t 1000)) in *.
      split.
      + right. apply Z.lt_le_trans with (t / 1000); [lia |].
        apply Z.div_le_lower_bound; lia.
      + split; [apply Z.div_le_lower_bound; lia
               | apply Z.lt_succ_r, Z.div_lt_upper_bound; lia]. }
  destruct Hsec as (sec & -> & Hout & Hlo & Hhi).
  change (2 ^ 38) with 274877906944 in *.
  unfold min_seconds, max_seconds, min_localtime, max_localtime.
  destruct (Z.leb_spec (-62135510400) sec);
    destruct (Z.leb_spec sec 253402300799); cbn [andb]; try lia;
    destruct (Z.leb_spec (-67768040609740800) sec);
    destruct (Z.leb_spec sec 67768036191676799); cbn [andb]; try lia;
    reflexivity.
Qed.

(** X14: the valid epoch milliseconds are exactly the integers
    [datetime.fromtimestamp(t / 1000)] accepts: below [2 ^ 38] seconds in
    magnitude the conversion returns a point in time if and only if [t]
    is a valid epoch millisecond, and on every other such [t] the
    timestamp validator raises the "year out of range" [ValueError] of
    [datetime], not its own "invalid timestamp". *)
Theorem X14_timestamp_range (t : Z) :
  Z.abs t < 1000 * 2 ^ 38 ->
  (valid_millis t <-> exists d, parse_timestamp (PInt t) = Return (PDatetime d))
  /\ (~ valid_millis t ->
      parse_timestamp (PInt t) = Raise ValueError_year_out_of_range).
Proof.
  intros Ha.
  assert (Hout : ~ valid_millis t ->
                 parse_timestamp (PInt t) = Raise ValueError_year_out_of_range).
  { intros Hn. cbn [parse_timestamp py_int].
    rewrite (fromtimestamp_ms_out_of_range t Ha Hn). reflexivity. }
  split; [| exact Hout]. split.
  - intros Hv. destruct (fromtimestamp_ms_valid t Hv) as (d & Hd & _).
    exists d. cbn [parse_timestamp py_int]. rewrite Hd. reflexivity.
  - intros [d Hd].
    assert (Hdec : valid_millis t \/ ~ valid_millis t)
      by (unfold valid_millis; lia).
    destruct Hdec as [Hv | Hn]; [exact Hv |].
    rewrite (Hout Hn) in Hd; discriminate.
Qed.

(** ** Decimal strings *)

Lemma digits_tail_uint d : forall acc,
  digits_tail (Zpos acc) (NilEmpty.string_of_uint d)
  = Some (Zpos (Pos.of_uint_acc d acc)).
Proof.
  induction d; intros acc; cbn [NilEmpty.string_of_uint Pos.of_uint_acc];
    [reflexivity | ..];
    cbn [digits_tail];
    match goal with
    | |- context [digit_of ?c] =>
        let k := eval vm_compute in (digit_of c) in
        change (digit_of c) with k
    end;
    cbv iota; rewrite <- IHd; f_equal; lia.
Qed.

Lemma digits_tail_uint0 d :
  digits_tail 0 (NilEmpty.string_of_uint d) = Some (Z.of_N (Pos.of_uint d)).
Proof.
  induction d; cbn [NilEmpty.string_of_uint Pos.of_uint];
    [reflexivity | ..];
    cbn [digits_tail];
    match goal with
    | |- context [digit_of ?c] =>
        let k := eval vm_compute in (digit_of c) in
        change (digit_of c) with k
    end;
    cbv iota; [exact IHd | ..];
    cbn [Z.of_N]; rewrite <- digits_tail_uint; reflexivity.
Qed.

Lemma digits_uint d :
  d <> Decimal.Nil ->
  digits (NilEmpty.string_of_uint d) = Some (Z.of_N (Pos.of_uint d))
  /\ int_of_str (NilEmpty.string_of_uint d) = Some (Z.of_N (Pos.of_uint d)).
Proof.
  intros Hd. rewrite <- digits_tail_uint0.
  destruct d; [contradiction | split; reflexivity ..].
Qed.

Lemma int_of_str_minus s :
  int_of_str (String "-" s) = option_map Z.opp (digits s).
Proof. reflexivity. Qed.

Lemma int_of_str_of_int z : int_of_str (str_of_int z) = Some z.
Proof.
  unfold str_of_int. destruct z as [| p | p]; [reflexivity | |];
    cbn [Z.to_int NilZero.string_of_int];
    pose proof (DecimalPos.Unsigned.of_to p) as Hp;
    destruct (Pos.to_uint p) eqn:E; try discriminate Hp;
    unfold NilZero.string_of_uint;
    rewrite ?int_of_str_minus;
    match goal with
    | |- context [NilEmpty.string_of_uint ?d] =>
        destruct (digits_uint d ltac:(discriminate)) as [H1 H2];
        rewrite ?H1, ?H2, Hp
    end; reflexivity.
Qed.


(** ** Closed instances of the further properties *)

Lemma X1_witness :
  get "platform" [("id", PInt 1)] = None
  /\ reports (mk_error [LKey "platform"] MissingError)
       (validate_Event string text_parse text_element [("id", PInt 1)]).
Proof.
  assert (H : get "platform" [("id", PInt 1)] = None) by reflexivity.
  split; [exact H |].
  exact (proj1 (Forall_forall _ _)
           (X1_event_reports_missing string text_parse text_element)
           "platform" (or_intror (or_intror (or_introl eq_refl))) _ H).
Defined.


Lemma X3_witness :
  get "member" [("member", PDict [("user", PDict [])])]
  = Some (PDict [("user", PDict [])])
  /\ get "user" [("user", PDict [])] = Some (PDict [])
  /\ get "id" ([] : RawMap) = None
  /\ reports (mk_error [LKey "member"; LKey "user"; LKey "id"] MissingError)
       (validate_Event string text_parse text_element
          [("member", PDict [("user", PDict [])])]).
Proof.
  assert (H1 : get "member" [("member", PDict [("user", PDict [])])]
               = Some (PDict [("user", PDict [])])) by reflexivity.
  assert (H2 : get "user" [("user", PDict [])] = Some (PDict []))
    by reflexivity.
  assert (H3 : get "id" ([] : RawMap) = None) by reflexivity.
  split; [exact H1 |]. split; [exact H2 |]. split; [exact H3 |].
  exact (proj2 (X3_nested_error_path string text_parse text_element _ _ H1)
           _ H2 H3).
Defined.

Lemma X6_witness :
  get "op" [("op", PBool true)] = Some (PBool true)
  /\ py_int (PBool true) = Return 1
  /\ validate_PayloadType string text_parse text_element
       (PDict [("op", PBool true)])
     = ([], Valid (APingPayload string (mk_PingPayload PING None)))
  /\ Opcode_of_int 1
     = Some (payload_op string
               (APingPayload string (mk_PingPayload PING None))).
Proof.
  assert (H1 : get "op" [("op", PBool true)] = Some (PBool true))
    by reflexivity.
  assert (H2 : py_int (PBool true) = Return 1) by reflexivity.
  assert (H3 : validate_PayloadType string text_parse text_element
                 (PDict [("op", PBool true)])
               = ([], Valid (APingPayload string (mk_PingPayload PING None))))
    by reflexivity.
  split; [exact H1 |]. split; [exact H2 |]. split; [exact H3 |].
  exact (X6_decoded_opcode string text_parse text_element _ _ _ _ _ H1 H2 H3).
Defined.



Lemma X9_witness :
  validate_Ready [("logins", PList [PDict [("status", PInt 1)]])]
  = ([], Valid (mk_Ready [mk_Login None None None ONLINE []]))
  /\ exists items,
      get "logins" [("logins", PList [PDict [("status", PInt 1)]])]
      = Some (PList items)
      /\ Forall2
           (fun item login =>
              Model_validate validate_Login item = ([], Valid login))
           items
           (Ready_logins (mk_Ready [mk_Login None None None ONLINE []])).
Proof.
  assert (H1 : validate_Ready [("logins", PList [PDict [("status", PInt 1)]])]
               = ([], Valid (mk_Ready [mk_Login None None None ONLINE []])))
    by reflexivity.
  split; [exact H1 |].
  exact (proj2 (X9_ready_logins _ _ _ H1)).
Defined.




Lemma X14_witness :
  Z.abs 253402300800000 < 1000 * 2 ^ 38
  /\ ~ valid_millis 253402300800000
  /\ parse_timestamp (PInt 253402300800000)
     = Raise ValueError_year_out_of_range.
Proof.
  assert (H1 : Z.abs 253402300800000 < 1000 * 2 ^ 38) by reflexivity.
  assert (H2 : ~ valid_millis 253402300800000)
    by (unfold valid_millis, min_seconds, max_seconds; lia).
  split; [exact H1 |]. split; [exact H2 |].
  exact (proj2 (X14_timestamp_range 253402300800000 H1) H2).
Defined.


Lemma X16_witness :
  PInt 5 <> PNone
  /\ py_dict (PInt 5) = None
  /\ validate_PayloadType string text_parse text_element (PInt 5)
     = ([], Invalid (repeat (mk_error [] DictError) 6)).
Proof.
  assert (H1 : PInt 5 <> PNone) by discriminate.
  assert (H2 : py_dict (PInt 5) = None) by reflexivity.
  split; [exact H1 |]. split; [exact H2 |].
  exact (proj1 (X16_not_a_mapping string text_parse text_element) _ H1 H2).
Defined.


